(** * Real-estate RAG agent: a shallow embedding of the query core

    The repository has two implementations.  The JavaScript one
    ([rag_with_js]) ingests a text file into a Supabase table and answers
    questions through [documentSemanticSearch]; the Python one
    ([rag_with_python]) is documented through the code excerpts of its fix
    notes ([detect_detail_level], the location post-filter of [main.py]).

    Part I embeds the code, Part II states and proves the properties. *)

From Stdlib Require Import String Ascii List ZArith QArith Lia Bool Arith Sorted.
From Stdlib Require Import Permutation.
Import ListNotations.

Set Implicit Arguments.

(* ================================================================== *)
(** * Part I.  The embedding                                           *)
(* ================================================================== *)

(** ** Strings

    Query and chunk texts are strings; the operations the code applies to
    them are Python's [str.lower()] and the substring test [a in b].
    A string is the sequence of the bytes of its UTF-8 encoding, on which
    the substring test is the one on characters.  [lower] is the ASCII case
    mapping: it is [str.lower()] on ASCII text and leaves every other byte as
    it is, where [str.lower()] also lowers letters outside ASCII.  Where a
    property depends on that, the lowercasing is a parameter (see
    [MainPy.filter_by_location_with]). *)

Module Str.

Local Open Scope string_scope.

Definition lower_char (c : ascii) : ascii :=
  let n := nat_of_ascii c in
  if (65 <=? n)%nat && (n <=? 90)%nat then ascii_of_nat (n + 32) else c.

(** [s.lower()] *)
Fixpoint lower (s : string) : string :=
  match s with
  | EmptyString => EmptyString
  | String c s' => String (lower_char c) (lower s')
  end.

(** [hay.startswith(needle)] *)
Fixpoint starts_with (needle hay : string) : bool :=
  match needle, hay with
  | EmptyString, _ => true
  | String _ _, EmptyString => false
  | String a n', String b h' => Ascii.eqb a b && starts_with n' h'
  end.

(** [needle in hay] *)
Fixpoint contains (needle hay : string) : bool :=
  starts_with needle hay
  || match hay with
     | EmptyString => false
     | String _ h' => contains needle h'
     end.

(** [s.isascii()] *)
Fixpoint is_ascii (s : string) : bool :=
  match s with
  | EmptyString => true
  | String c s' => (nat_of_ascii c <? 128)%nat && is_ascii s'
  end.

(** What "[hay] contains [needle]" means, independently of the search. *)
Definition occurs_in (needle hay : string) : Prop :=
  exists pre post, hay = pre ++ needle ++ post.

(** Case-insensitive containment, as the location filter uses it. *)
Definition occurs_in_ci (needle hay : string) : Prop :=
  occurs_in (lower needle) (lower hay).

End Str.

(** ** query_preprocessor.py *)

Module QueryPreprocessor.

Local Open Scope string_scope.

(** The keyword list of the budget rule. *)
Definition budget_keywords : list string :=
  ["budget"; "lakh"; "crore"; "price"; "cost"; "afford"; "can i buy"].

(** [detect_detail_level(cls, query)].  The fix notes show the head of the
    method and elide the remainder as "rest of the logic"; the remainder is
    the parameter [rest_of_logic], which receives the query. *)
Definition detect_detail_level (rest_of_logic : string -> string)
    (query : string) : string :=
  let query_lower := Str.lower query in
  if existsb (fun word => Str.contains word query_lower) budget_keywords
  then "detailed"
  else rest_of_logic query.

End QueryPreprocessor.

(** ** main.py: vector search and the post-search location filter *)

Module MainPy.

Local Open Scope string_scope.

(** A search result is a dict; the filter reads its ['text'] key with
    default [''].  [chunk] stands for the remaining keys. *)
Record SearchResult := {
  chunk : Z;
  text : option string
}.

(** [result.get('text', '')] *)
Definition get_text (result : SearchResult) : string :=
  match text result with
  | Some t => t
  | None => ""
  end.

(** [query_analysis]: only the ['locations'] key is read, with default []. *)
Record QueryAnalysis := {
  locations : option (list string)
}.

Definition get_locations (query_analysis : QueryAnalysis) : list string :=
  match locations query_analysis with
  | Some l => l
  | None => []
  end.

(** [any(loc in result_text for loc in location_lower)] with
    [result_text = result.get('text', '').lower()]. *)
Definition mentions_location (location_lower : list string)
    (result : SearchResult) : bool :=
  let result_text := Str.lower (get_text result) in
  existsb (fun loc => Str.contains loc result_text) location_lower.

(** The block "FILTER RESULTS BY EXTRACTED LOCATION". *)
Definition filter_by_location (query_analysis : QueryAnalysis)
    (results : list SearchResult) : list SearchResult :=
  let extracted_locations := get_locations query_analysis in
  match extracted_locations with
  | [] => results
  | _ :: _ =>
      let location_lower := map Str.lower extracted_locations in
      let filtered_results :=
        filter (mentions_location location_lower) results in
      match filtered_results with
      | [] => results
      | _ :: _ => filtered_results
      end
  end.

(** The same block over any lowercasing.  [str.lower()] follows the Unicode
    case mapping, a table that is not part of the sources; [lower] stands for
    it.  [filter_by_location] above is the instance at the ASCII mapping. *)
Section Lowercasing.

Variable lower : string -> string.

(** [any(loc in result_text for loc in location_lower)] with
    [result_text = result.get('text', '').lower()]. *)
Definition mentions_location_with (location_lower : list string)
    (result : SearchResult) : bool :=
  let result_text := lower (get_text result) in
  existsb (fun loc => Str.contains loc result_text) location_lower.

(** The block "FILTER RESULTS BY EXTRACTED LOCATION". *)
Definition filter_by_location_with (query_analysis : QueryAnalysis)
    (results : list SearchResult) : list SearchResult :=
  let extracted_locations := get_locations query_analysis in
  match extracted_locations with
  | [] => results
  | _ :: _ =>
      let location_lower := map lower extracted_locations in
      let filtered_results :=
        filter (mentions_location_with location_lower) results in
      match filtered_results with
      | [] => results
      | _ :: _ => filtered_results
      end
  end.

(** A candidate matches when its text contains, ignoring case, one of the
    requested locations: the lowered location occurs in the lowered text. *)
Definition matches_some_location_with (locs : list string)
    (r : SearchResult) : Prop :=
  exists loc, In loc locs /\ Str.occurs_in (lower loc) (lower (get_text r)).

End Lowercasing.

(** A lowercasing that goes beyond ASCII, for examples: it also lowers the
    capitals of the Latin-1 supplement, whose UTF-8 encoding is the byte 195
    followed by a byte from 128 to 158 other than 151 (the lower-case letter
    is 32 above). *)
Fixpoint lower_latin (s : string) : string :=
  match s with
  | EmptyString => EmptyString
  | String c rest =>
      match rest with
      | String d rest' =>
          let n := nat_of_ascii d in
          if (nat_of_ascii c =? 195)%nat && (128 <=? n)%nat && (n <=? 158)%nat
             && negb (n =? 151)%nat
          then String c (String (ascii_of_nat (n + 32)) (lower_latin rest'))
          else String (Str.lower_char c) (lower_latin rest)
      | EmptyString => String (Str.lower_char c) EmptyString
      end
  end.

(** "CAFE LANE" and "Cafe Lane" with an acute accent on the E, in UTF-8. *)
Definition CAFE_LANE : string :=
  "CAF" ++ String (ascii_of_nat 195) (String (ascii_of_nat 137) " LANE").

Definition Cafe_Lane : string :=
  "Caf" ++ String (ascii_of_nat 195) (String (ascii_of_nat 169) " Lane").

(** The request body of [/query/]. *)
Record QueryRequest := {
  query : string;
  top_k : Z
}.

(** The arguments of one [vector_store.search] call. *)
Record SearchCall (Embedding : Type) := {
  query_embedding : Embedding;
  search_top_k : Z
}.

(** [vector_store.search(query_embedding=query_embedding,
                         top_k=max(request.top_k, 10))] *)
Definition search_call (Embedding : Type) (request : QueryRequest)
    (embedding : Embedding) : SearchCall Embedding :=
  {| query_embedding := embedding;
     search_top_k := Z.max (top_k request) 10 |}.

(** Search, then filter.  The vector store is the collaborator
    [vector_store_search]. *)
Definition search_and_filter (Embedding : Type)
    (vector_store_search : SearchCall Embedding -> list SearchResult)
    (request : QueryRequest) (embedding : Embedding)
    (query_analysis : QueryAnalysis) : list SearchResult :=
  let results := vector_store_search (search_call request embedding) in
  filter_by_location query_analysis results.

(** A candidate matches when its text contains, ignoring case, one of the
    requested locations. *)
Definition matches_some_location (locs : list string) (r : SearchResult) : Prop :=
  exists loc, In loc locs /\ Str.occurs_in_ci loc (get_text r).

(** [sep.join(parts)] *)
Fixpoint py_join (sep : string) (parts : list string) : string :=
  match parts with
  | [] => ""
  | p :: rest =>
      match rest with
      | [] => p
      | _ :: _ => p ++ sep ++ py_join sep rest
      end
  end.

(** The line feed of the f-strings. *)
Definition LF : string := String (ascii_of_nat 10) "".

(** The block of main.py that extends the system prompt,
    [if query_analysis["locations"]: system_prompt += ...], three times.
    Subscripting a dict that lacks the key raises [KeyError]: that is the
    [None]. *)
Definition add_location_instructions (query_analysis : QueryAnalysis)
    (system_prompt : string) : option string :=
  match locations query_analysis with
  | None => None
  | Some [] => Some system_prompt
  | Some ((_ :: _) as locs) =>
      let p1 := system_prompt ++ (LF ++ "Preferred locations: "
                                  ++ py_join ", " locs) in
      let p2 := p1 ++ (LF ++ LF
                       ++ "*** IMPORTANT: ONLY show properties from these locations: "
                       ++ py_join ", " locs ++ " ***") in
      let p3 := p2 ++ (LF ++ "*** DO NOT include properties from other localities in your response ***") in
      Some p3
  end.

(** A vector store for examples: twenty chunks, of which a search returns
    the first [top_k]. *)
Definition twenty_chunks : list SearchResult :=
  map (fun i => {| chunk := Z.of_nat i; text := None |}) (seq 0 20).

Definition first_k_store (call : SearchCall unit) : list SearchResult :=
  firstn (Z.to_nat (search_top_k call)) twenty_chunks.

End MainPy.

(** ** document.sql: the table and its search function

    [vector] stands for pgvector's [vector(1536)] and [cosine_distance] for
    its operator [<=>]; similarities are rationals.  Both columns of the
    table are nullable. *)

Module Sql.

Section RealEstate.

Variable vector : Type.
Variable cosine_distance : vector -> vector -> Q.

(** [create table real_estate] *)
Record Row := {
  id : Z;
  content : option string;
  embedding : option vector
}.

(** A row of the table that [match_real_estate] returns. *)
Record Match := {
  match_id : Z;
  match_content : option string;
  similarity : Q
}.

(** [1 - (real_estate.embedding <=> query_embedding)]; NULL for a NULL
    embedding. *)
Definition similarity_to (query_embedding : vector) (r : Row) : option Q :=
  match embedding r with
  | Some e => Some (1 - cosine_distance e query_embedding)
  | None => None
  end.

Definition Qlt_bool (x y : Q) : bool := negb (Qle_bool y x).

(** [select ... from real_estate where similarity > match_threshold]: a row
    whose similarity is NULL does not pass the [where]. *)
Definition select_where (table : list Row) (query_embedding : vector)
    (match_threshold : Q) : list Match :=
  flat_map
    (fun r =>
       match similarity_to query_embedding r with
       | Some s =>
           if Qlt_bool match_threshold s
           then [{| match_id := id r; match_content := content r;
                    similarity := s |}]
           else []
       | None => []
       end)
    table.

(** [order by similarity desc], as an insertion sort.  SQL leaves the order
    of rows of equal similarity open; here they come out in reverse table
    order. *)
Fixpoint insert_desc (m : Match) (sorted : list Match) : list Match :=
  match sorted with
  | [] => [m]
  | x :: rest =>
      if Qle_bool (similarity m) (similarity x)
      then x :: insert_desc m rest
      else m :: sorted
  end.

Definition order_by_similarity_desc (rows : list Match) : list Match :=
  fold_right insert_desc [] rows.

(** [match_real_estate(query_embedding, match_threshold, match_count)].
    PostgreSQL rejects a negative [limit]; that is the [None]. *)
Definition match_real_estate (table : list Row) (query_embedding : vector)
    (match_threshold : Q) (match_count : Z) : option (list Match) :=
  if (match_count <? 0)%Z then None
  else Some (firstn (Z.to_nat match_count)
               (order_by_similarity_desc
                  (select_where table query_embedding match_threshold))).

(** [a] may stand before [b] in a descending list. *)
Definition may_precede (a b : Match) : Prop := similarity b <= similarity a.

(** Descending similarity, position by position. *)
Definition descending (ms : list Match) : Prop :=
  forall i j a b, (i < j)%nat ->
    nth_error ms i = Some a -> nth_error ms j = Some b ->
    similarity b <= similarity a.

End RealEstate.

End Sql.

(** ** The JavaScript service: embedding.js, similaritySearch.js,
       documentSemanticSearch.js, the [/api/search] handler and the
       ingestion script *)

Module Js.

Import Sql.
Local Open Scope string_scope.

(** A chat message, [{ role, content }]. *)
Record Message := {
  role : string;
  content : string
}.

(** What the process reaches outside itself: the OpenAI client, the Supabase
    client and pgvector's distance.  A call of the OpenAI client that throws,
    or whose response lacks the field the code reads, is [None];
    [supabase_reachable = false] makes every Supabase call answer with
    [error] set, whether the request never arrived or PostgreSQL rejected
    it.  An insert that PostgreSQL rejects may have drawn ids from the
    sequence, which are not given back: [failed_insert_ids] is their number
    (0 when the request never arrived). *)
Record Externals (vector : Type) := {
  embeddings_create : string -> option vector;
  chat_completions_create : list Message -> option Message;
  cosine_distance : vector -> vector -> Q;
  supabase_reachable : bool;
  failed_insert_ids : nat
}.

(** Lines written with [console.error]. *)
Inductive ConsoleError :=
| ErrorMatchingEmbedding
| ErrorDuringChatCompletions
| ErrorDuringSemanticSearch
| ErrorInsertingData
| ErrorReadingTextFile
| HandlerError.

(** The state that outlives a call: the module-level array [chatMessages],
    the table [real_estate] with its [bigserial] counter, the console, and
    the requests received by the chat-completion endpoint (oldest first). *)
Record World (vector : Type) := {
  chatMessages : list Message;
  real_estate : list (Row vector);
  real_estate_id_seq : Z;
  console_errors : list ConsoleError;
  chat_requests : list (list Message)
}.

(** How an [async] function settles. *)
Inductive Settled (A : Type) :=
| Fulfilled (value : A)
| Rejected (reason : string).

Arguments Rejected {A} reason.

Definition systemPrompt : Message :=
  {| role := "system";
     content := "You are a helpful Real Estate Assistant mostly looking for properties in Pune City. It is a company invloved in Real Estate industry. If any one ask you any question other than Real Estate, you will reply with 'Let's stay on track'. When providing information, ensure it is accurate and relevant to real estate. Also make sure to add appropriate links to their products for more information. If you are unsure about an answer, it's better to admit it than to provide incorrect information. Also, keep your answers concise and to the point. Currently you only have information about properties in Pune city." |}.

Section Service.

Variable vector : Type.
Variable ext : Externals vector.

Definition console_error (e : ConsoleError) (w : World vector) : World vector :=
  {| chatMessages := chatMessages w;
     real_estate := real_estate w;
     real_estate_id_seq := real_estate_id_seq w;
     console_errors := console_errors w ++ [e];
     chat_requests := chat_requests w |}.

(** [chatMessages.push(m)] *)
Definition push_chat (m : Message) (w : World vector) : World vector :=
  {| chatMessages := chatMessages w ++ [m];
     real_estate := real_estate w;
     real_estate_id_seq := real_estate_id_seq w;
     console_errors := console_errors w;
     chat_requests := chat_requests w |}.

(** The endpoint receives the array [chatMessages] as it is at the call. *)
Definition record_chat_request (w : World vector) : World vector :=
  {| chatMessages := chatMessages w;
     real_estate := real_estate w;
     real_estate_id_seq := real_estate_id_seq w;
     console_errors := console_errors w;
     chat_requests := chat_requests w ++ [chatMessages w] |}.

(** The state of a freshly loaded module: [chatMessages = [systemPrompt]]. *)
Definition module_loaded (table : list (Row vector)) (seq : Z) : World vector :=
  {| chatMessages := [systemPrompt];
     real_estate := table;
     real_estate_id_seq := seq;
     console_errors := [];
     chat_requests := [] |}.

(** [generateEmbedding(text)] followed by [.data[0].embedding]. *)
Definition generateEmbedding (text : string) : option vector :=
  embeddings_create ext text.

(** [supabase.rpc("match_real_estate", ...)]: [inl] is [data], [inr] is
    [error]. *)
Definition rpc_match_real_estate (w : World vector) (query_embedding : vector)
    (match_threshold : Q) (match_count : Z) : list (Match) + string :=
  if supabase_reachable ext then
    match match_real_estate (cosine_distance ext) (real_estate w)
            query_embedding match_threshold match_count with
    | Some rows => inl rows
    | None => inr "LIMIT must not be negative"
    end
  else inr "fetch failed".

(** similaritySearch.js, [matchEmbedding(embedding, threshold, matchCount)] *)
Definition matchEmbedding (embedding : vector) (threshold : Q)
    (matchCount : Z) (w : World vector) : list Match * World vector :=
  match rpc_match_real_estate w embedding threshold matchCount with
  | inr _ => ([], console_error ErrorMatchingEmbedding w)
  | inl data => (data, w)
  end.

(** [parts.join(sep)]; [null] joins as the empty string. *)
Fixpoint join (sep : string) (parts : list (option string)) : string :=
  match parts with
  | [] => ""
  | p :: rest =>
      let p' := match p with Some t => t | None => "" end in
      match rest with
      | [] => p'
      | _ :: _ => p' ++ sep ++ join sep rest
      end
  end.

(** The separator ["\n---\n"]. *)
Definition chunk_separator : string :=
  String (ascii_of_nat 10) ("---" ++ String (ascii_of_nat 10) "").

(** [`Content: ${text}. Question: ${query}`] *)
Definition user_message (text query : string) : Message :=
  {| role := "user";
     content := "Content: " ++ text ++ ". Question: " ++ query |}.

(** [getChatCompletions(text, query)]; the result [None] is [undefined]. *)
Definition getChatCompletions (text query : string) (w : World vector)
    : option Message * World vector :=
  let w1 := push_chat (user_message text query) w in
  let w2 := record_chat_request w1 in
  match chat_completions_create ext (chatMessages w1) with
  | Some message => (Some message, push_chat message w2)
  | None => (None, console_error ErrorDuringChatCompletions w2)
  end.

(** [documentSemanticSearch(query)] *)
Definition documentSemanticSearch (query : string) (w : World vector)
    : Settled (option Message) * World vector :=
  match generateEmbedding query with
  | None => (Fulfilled None, console_error ErrorDuringSemanticSearch w)
  | Some queryVector =>
      let (matches, w1) := matchEmbedding queryVector (3 # 4) 5 w in
      let contents := join chunk_separator (map (@match_content) matches) in
      let (reply, w2) := getChatCompletions contents query w1 in
      (Fulfilled reply, w2)
  end.

(** The body sent with [res.json]. *)
Inductive ResponseBody :=
| ContentBody (content : string)
| ErrorBody (error : string).

Record HttpResponse := {
  status : Z;
  body : ResponseBody
}.

(** [app.post("/api/search", ...)].  Reading [.content] of [undefined]
    throws, which the handler's [catch] answers with status 500. *)
Definition api_search (question : string) (w : World vector)
    : HttpResponse * World vector :=
  let (response, w1) := documentSemanticSearch question w in
  match response with
  | Fulfilled (Some message) =>
      ({| status := 200; body := ContentBody (content message) |}, w1)
  | Fulfilled None | Rejected _ =>
      ({| status := 500; body := ErrorBody "Something went wrong" |},
       console_error HandlerError w1)
  end.

(** The response of the handler's [catch]. *)
Definition error_500 : HttpResponse :=
  {| status := 500; body := ErrorBody "Something went wrong" |}.

(** Requests served one after the other by the same process. *)
Fixpoint serve (questions : list string) (w : World vector)
    : list HttpResponse * World vector :=
  match questions with
  | [] => ([], w)
  | q :: rest =>
      let (r, w1) := api_search q w in
      let (rs, w2) := serve rest w1 in
      (r :: rs, w2)
  end.

(** *** Ingestion: embedding.js and documentEmbedding.js *)

(** The rows of one [insert], numbered by the [bigserial] column. *)
Fixpoint number_rows (next : Z) (data : list (string * vector))
    : list (Row vector) :=
  match data with
  | [] => []
  | (c, e) :: rest =>
      {| id := next; Sql.content := Some c; embedding := Some e |}
      :: number_rows (next + 1) rest
  end.

(** [storeEmbeddingToSupabase(data)]: one [insert], nothing else.  When the
    insert reports an error the function logs it; no row was stored, and the
    sequence has moved on by the ids the failed insert drew. *)
Definition storeEmbeddingToSupabase (data : list (string * vector))
    (w : World vector) : World vector :=
  if supabase_reachable ext then
    {| chatMessages := chatMessages w;
       real_estate := real_estate w ++ number_rows (real_estate_id_seq w) data;
       real_estate_id_seq := real_estate_id_seq w + Z.of_nat (length data);
       console_errors := console_errors w;
       chat_requests := chat_requests w |}
  else
    {| chatMessages := chatMessages w;
       real_estate := real_estate w;
       real_estate_id_seq :=
         real_estate_id_seq w + Z.of_nat (failed_insert_ids ext);
       console_errors := console_errors w ++ [ErrorInsertingData];
       chat_requests := chat_requests w |}.

(** [Promise.all(chunks.map(async (chunk) => ...))]: one rejected embedding
    rejects the whole. *)
Fixpoint embed_chunks (chunks : list string) : option (list (string * vector)) :=
  match chunks with
  | [] => Some []
  | pageContent :: rest =>
      match generateEmbedding pageContent, embed_chunks rest with
      | Some e, Some data => Some ((pageContent, e) :: data)
      | _, _ => None
      end
  end.

(** The script documentEmbedding.js.  [file] is the content of the document,
    [None] when the file does not exist; [splitContent] is the text splitter
    of splitDocument.js, giving the [pageContent] of each chunk in order. *)
Definition documentEmbedding (splitContent : string -> list string)
    (file : option string) (w : World vector) : Settled unit * World vector :=
  match file with
  | None => (Rejected "File not found", console_error ErrorReadingTextFile w)
  | Some content =>
      let chunks := splitContent content in
      match embed_chunks chunks with
      | None => (Rejected "embedding failed", w)
      | Some data => (Fulfilled tt, storeEmbeddingToSupabase data w)
      end
  end.

(** The conversation and every request sent to the chat endpoint begin with
    the message [p]. *)
Definition headed_by (p : Message) (w : World vector) : Prop :=
  (exists rest, chatMessages w = p :: rest)
  /\ Forall (fun sent => exists rest, sent = p :: rest) (chat_requests w).

(** The [bigserial] primary key: the ids of the table are distinct and all
    below the next value of the sequence. *)
Definition primary_key_ok (w : World vector) : Prop :=
  NoDup (map (@id vector) (real_estate w))
  /\ forall r, In r (real_estate w) -> (id r < real_estate_id_seq w)%Z.

End Service.

End Js.

(** ** The page script: the form handler and [main(question)] *)

Module Client.

Import Js.
Local Open Scope string_scope.








End Client.

(** ** Concrete collaborators, for the examples of Part II *)

Module JsExamples.

Import Sql Js.
Local Open Scope string_scope.

(** One-number stand-ins for embeddings: equal numbers are at distance 0,
    different ones at distance 1/2. *)
Definition toy_distance (a b : nat) : Q :=
  if (a =? b)%nat then 0 else 1 # 2.

Definition canned_reply : Message :=
  {| role := "assistant"; content := "Evergreen Heights is in Wakad." |}.

(** The Embedding Service is down; everything else works. *)
Definition embedding_down : Externals nat :=
  {| embeddings_create := fun _ => None;
     chat_completions_create := fun _ => Some canned_reply;
     cosine_distance := toy_distance;
     supabase_reachable := true;
     failed_insert_ids := 0 |}.

(** Everything works; the model's reply depends on the conversation it is
    sent: one answer to a conversation of two messages (system prompt and
    question), another to anything longer. *)
Definition all_up : Externals nat :=
  {| embeddings_create := fun _ => Some 0%nat;
     chat_completions_create :=
       fun messages =>
         Some {| role := "assistant";
                 content :=
                   if (length messages =? 2)%nat
                   then "Evergreen Heights is in Wakad."
                   else "As I said, Evergreen Heights." |};
     cosine_distance := toy_distance;
     supabase_reachable := true;
     failed_insert_ids := 0 |}.

(** A table with one chunk, at similarity 1/2 to every query. *)
Definition one_chunk_table : list (Row nat) :=
  [{| id := 1; Sql.content := Some "Evergreen Heights, Wakad";
      embedding := Some 7%nat |}].

(** A table with three chunks; the second is at similarity 1 to the query
    embedding 0, the others at 1/2. *)
Definition three_chunk_table : list (Row nat) :=
  [{| id := 1; Sql.content := Some "Evergreen Heights, Wakad";
      embedding := Some 7%nat |};
   {| id := 2; Sql.content := Some "Summit Enclave, Kothrud";
      embedding := Some 0%nat |};
   {| id := 3; Sql.content := Some "Skyline Orchid, Kharadi";
      embedding := Some 7%nat |}].

(** The Embedding Service rejects texts that mention Kharadi. *)
Definition embedding_partly_down : Externals nat :=
  {| embeddings_create :=
       fun text => if Str.contains "Kharadi" text then None else Some 0%nat;
     chat_completions_create := fun _ => Some canned_reply;
     cosine_distance := toy_distance;
     supabase_reachable := true;
     failed_insert_ids := 0 |}.

(** Supabase cannot be reached; OpenAI works. *)
Definition supabase_down : Externals nat :=
  {| embeddings_create := fun _ => Some 0%nat;
     chat_completions_create := fun _ => Some canned_reply;
     cosine_distance := toy_distance;
     supabase_reachable := false;
     failed_insert_ids := 0 |}.

(** PostgreSQL rejects the insert after two ids were drawn; OpenAI works. *)
Definition insert_rejected : Externals nat :=
  {| embeddings_create := fun _ => Some 0%nat;
     chat_completions_create := fun _ => Some canned_reply;
     cosine_distance := toy_distance;
     supabase_reachable := false;
     failed_insert_ids := 2 |}.

(** A splitter for examples: one chunk per line. *)
Fixpoint split_lines (text : string) : list string :=
  match text with
  | "" => [""]
  | String c rest =>
      let ls := split_lines rest in
      if Ascii.eqb c (ascii_of_nat 10) then "" :: ls
      else match ls with
           | [] => [String c ""]
           | l :: ls' => String c l :: ls'
           end
  end.

(** Two lines, one per chunk. *)
Definition two_line_document : string :=
  "Evergreen Heights, Wakad" ++ String (ascii_of_nat 10) "Skyline Orchid, Kharadi".

(** The splitter on a document short enough for one chunk. *)
Definition one_chunk (text : string) : list string := [text].

End JsExamples.

(** ** The text splitter *)

Module TextSplitter.

Local Open Scope string_scope.

(** [chunkSize: 300, chunkOverlap: 30], the options splitDocument.js passes
    to the splitter. *)
Definition chunkSize : nat := 300.
Definition chunkOverlap : nat := 30.

(** The first [n] characters of [s], and [s] without them. *)
Fixpoint take (n : nat) (s : string) : string :=
  match n, s with
  | O, _ => ""
  | S _, EmptyString => ""
  | S n', String c s' => String c (take n' s')
  end.

Fixpoint drop (n : nat) (s : string) : string :=
  match n, s with
  | O, _ => s
  | S _, EmptyString => ""
  | S n', String _ s' => drop n' s'
  end.

(** The last [n] characters of [s]. *)
Definition last_chars (n : nat) (s : string) : string :=
  drop (String.length s - n) s.

(** Modelled from the spec: the splitter itself, the class
    [RecursiveCharacterTextSplitter] that splitDocument.js imports, is not
    among the sources; the spec describes it as splitting "a document into
    fixed-size overlapping chunks", "preserving chunk order".  A window of
    [size] characters advances by [size - overlap] until the rest fits in
    one chunk; [fuel] bounds the number of windows. *)
Fixpoint windows (fuel size overlap : nat) (text : string) : list string :=
  match fuel with
  | O => []
  | S fuel' =>
      if (String.length text =? 0)%nat then []
      else if (String.length text <=? size)%nat then [text]
      else take size text :: windows fuel' size overlap (drop (size - overlap) text)
  end.

(** Modelled from the spec: a chunk carries its [chunkIndex], the "sequence
    position within source" of the spec's DocumentChunk. *)
Record Chunk := {
  chunkIndex : nat;
  pageContent : string
}.

Fixpoint number_chunks (from : nat) (texts : list string) : list Chunk :=
  match texts with
  | [] => []
  | t :: rest =>
      {| chunkIndex := from; pageContent := t |} :: number_chunks (S from) rest
  end.

(** [splitContent(text)] of splitDocument.js over the modelled splitter. *)
Definition splitContent (text : string) : list Chunk :=
  number_chunks 0 (windows (String.length text) chunkSize chunkOverlap text).

(** A document of [n] characters, for examples. *)
Fixpoint replicate (n : nat) (c : ascii) : string :=
  match n with
  | O => ""
  | S n' => String c (replicate n' c)
  end.

End TextSplitter.

(** ** The agent runtime *)

Module AgentRuntime.

Local Open Scope string_scope.

(** Modelled from the spec: the agents ([agents/real_estate_agents.py],
    [agent_orchestrator.py]) are not among the sources.  What follows is the
    state machine of the spec's section 4.4:
    Start, AwaitingModel, (ToolRequested, ToolExecuting, AwaitingModel)*,
    Done or Failed, with the iteration cap K. *)

Inductive Role := user | assistant | tool.

Record Message := {
  role : Role;
  content : string
}.

Record ToolCall := {
  toolName : string;
  arguments : string
}.

(** What the LLM Service answers: text, a tool call, or nothing after its
    retries are exhausted. *)
Inductive LLMResponse :=
| TextResponse (text : string)
| ToolCallResponse (call : ToolCall)
| Unavailable.

(** A tool's output, already serialized to text. *)
Inductive ToolResult :=
| ToolOutput (text : string)
| ToolError (text : string).

Inductive Phase :=
| Start
| AwaitingModel
| ToolRequested (call : ToolCall)
| ToolExecuting (call : ToolCall)
| Done
| Failed.

Record State := {
  phase : Phase;
  history : list Message;
  iterations : nat;
  llm_calls : nat;
  tool_errors : nat;
  answer : option string
}.

Definition apology : string :=
  "Sorry, I could not complete your request.".

Section Machine.

(** The iteration cap, the LLM Service (its answer may depend on the number
    of calls made so far and on the conversation) and the Tool Registry. *)
Variable K : nat.
Variable complete : nat -> list Message -> LLMResponse.
Variable execute : ToolCall -> ToolResult.

Definition initial (trimmed_history : list Message) : State :=
  {| phase := Start; history := trimmed_history; iterations := 0;
     llm_calls := 0; tool_errors := 0; answer := None |}.

Definition fail (s : State) : State :=
  {| phase := Failed; history := history s; iterations := iterations s;
     llm_calls := llm_calls s; tool_errors := tool_errors s;
     answer := Some apology |}.

Definition step (new_message : string) (s : State) : State :=
  match phase s with
  | Start =>
      (* the seed call is issued *)
      {| phase := AwaitingModel;
         history := history s ++ [{| role := user; content := new_message |}];
         iterations := 0; llm_calls := S (llm_calls s);
         tool_errors := tool_errors s; answer := None |}
  | AwaitingModel =>
      match complete (llm_calls s) (history s) with
      | TextResponse t =>
          {| phase := Done;
             history := history s ++ [{| role := assistant; content := t |}];
             iterations := iterations s; llm_calls := llm_calls s;
             tool_errors := tool_errors s; answer := Some t |}
      | ToolCallResponse c =>
          if (iterations s <? K)%nat then
            {| phase := ToolRequested c; history := history s;
               iterations := S (iterations s); llm_calls := llm_calls s;
               tool_errors := tool_errors s; answer := None |}
          else fail s
      | Unavailable => fail s
      end
  | ToolRequested c =>
      {| phase := ToolExecuting c; history := history s;
         iterations := iterations s; llm_calls := llm_calls s;
         tool_errors := tool_errors s; answer := None |}
  | ToolExecuting c =>
      match execute c with
      | ToolOutput t =>
          (* the result is appended and the model is called again *)
          {| phase := AwaitingModel;
             history := history s ++ [{| role := tool; content := t |}];
             iterations := iterations s; llm_calls := S (llm_calls s);
             tool_errors := tool_errors s; answer := None |}
      | ToolError t =>
          if (1 <=? tool_errors s)%nat then
            fail {| phase := Failed;
                    history := history s ++ [{| role := tool; content := t |}];
                    iterations := iterations s; llm_calls := llm_calls s;
                    tool_errors := S (tool_errors s); answer := None |}
          else
            {| phase := AwaitingModel;
               history := history s ++ [{| role := tool; content := t |}];
               iterations := iterations s; llm_calls := S (llm_calls s);
               tool_errors := S (tool_errors s); answer := None |}
      end
  | Done | Failed => s
  end.

Definition terminal (s : State) : bool :=
  match phase s with
  | Done | Failed => true
  | _ => false
  end.

(** [n] transitions of one request. *)
Fixpoint run (n : nat) (new_message : string) (s : State) : State :=
  match n with
  | O => s
  | S n' => run n' new_message (step new_message s)
  end.

(** How many transitions a state is away from a terminal one, at most. *)
Definition remaining (s : State) : nat :=
  match phase s with
  | Start => 3 * K + 2
  | AwaitingModel => 3 * (K - iterations s) + 1
  | ToolRequested _ => 3 * (K - iterations s) + 3
  | ToolExecuting _ => 3 * (K - iterations s) + 2
  | Done | Failed => 0
  end.

(** The bookkeeping that holds along a run. *)
Definition consistent (s : State) : Prop :=
  match phase s with
  | Start => llm_calls s = 0%nat /\ iterations s = 0%nat
  | AwaitingModel =>
      llm_calls s = S (iterations s) /\ (iterations s <= K)%nat
  | ToolRequested _ | ToolExecuting _ =>
      llm_calls s = iterations s /\ (iterations s <= K)%nat
  | Done | Failed => (llm_calls s <= K + 1)%nat
  end.

End Machine.

(** The default cap, and collaborators for examples: a model that asks for a
    tool at every call, one that answers after its second tool result, and a
    tool that echoes its name. *)
Definition default_K : nat := 3.

Definition always_tool_call (calls : nat) (conversation : list Message)
    : LLMResponse :=
  ToolCallResponse {| toolName := "searchProperties"; arguments := "{}" |}.

Definition answers_third_call (calls : nat) (conversation : list Message)
    : LLMResponse :=
  if (calls <? 3)%nat
  then ToolCallResponse {| toolName := "retrieveDocuments"; arguments := "{}" |}
  else TextResponse "I found 3 properties in Wakad.".

Definition echo_tool (call : ToolCall) : ToolResult :=
  ToolOutput (toolName call).

End AgentRuntime.

(* ================================================================== *)
(** * Part II.  Properties                                             *)
(* ================================================================== *)

(** ** Facts about strings *)

Module StrFacts.

Import Str.
Local Open Scope string_scope.

Lemma append_assoc (a b c : string) : (a ++ b) ++ c = a ++ (b ++ c).
Proof. induction a as [|x a IH]; simpl; [reflexivity | now rewrite IH]. Qed.

Lemma lower_append (a b : string) : lower (a ++ b) = lower a ++ lower b.
Proof. induction a as [|x a IH]; simpl; [reflexivity | now rewrite IH]. Qed.

Lemma starts_with_spec (needle hay : string) :
  starts_with needle hay = true <-> exists post, hay = needle ++ post.
Proof.
  revert hay; induction needle as [|a n IH]; intros hay; simpl.
  - split; [intros _; now exists hay | reflexivity].
  - destruct hay as [|b h].
    + split; [discriminate | intros [post H]; discriminate].
    + rewrite andb_true_iff, Ascii.eqb_eq, IH. split.
      * intros [-> [post ->]]. now exists post.
      * intros [post H]. injection H as -> ->. split; [reflexivity | now exists post].
Qed.

Lemma contains_spec (needle hay : string) :
  contains needle hay = true <-> occurs_in needle hay.
Proof.
  unfold occurs_in. induction hay as [|b h IH].
  - simpl. rewrite orb_false_r, starts_with_spec. split.
    + intros [post H]. exists "", post. exact H.
    + intros [pre [post H]]. destruct pre; simpl in H.
      * now exists post.
      * discriminate.
  - cbn [contains]. rewrite orb_true_iff, starts_with_spec, IH. split.
    + intros [[post H] | [pre [post H]]].
      * exists "", post. exact H.
      * exists (String b pre), post. simpl. now rewrite H.
    + intros [pre [post H]]. destruct pre as [|c pre]; simpl in H.
      * left. now exists post.
      * right. injection H as _ ->. now exists pre, post.
Qed.

Lemma occurs_in_lower (needle hay : string) :
  occurs_in needle hay -> occurs_in (lower needle) (lower hay).
Proof.
  intros [pre [post ->]]. exists (lower pre), (lower post).
  now rewrite !lower_append.
Qed.

Lemma contains_nil (hay : string) : contains "" hay = true.
Proof. destruct hay; reflexivity. Qed.

End StrFacts.

(** ** Query preprocessor: the budget rule *)

Module QueryPreprocessorFacts.

Import Str StrFacts QueryPreprocessor.
Local Open Scope string_scope.

Lemma budget_keywords_lowercase (kw : string) :
  In kw budget_keywords -> lower kw = kw.
Proof.
  unfold budget_keywords; simpl.
  intros H; repeat (destruct H as [<- | H]; [reflexivity |]); contradiction.
Qed.

(** When no keyword occurs in an ASCII query, the method hands over to the
    elided rules.  (Outside ASCII [str.lower()] can produce a keyword that
    the ASCII mapping does not, as for the Kelvin sign, which it lowers
    to k.) *)
Lemma no_budget_keyword_defers (rest : string -> string) (q : string) :
  is_ascii q = true ->
  (forall kw, In kw budget_keywords -> ~ occurs_in kw (lower q)) ->
  detect_detail_level rest q = rest q.
Proof.
  intros _ H. unfold detect_detail_level.
  destruct (existsb _ budget_keywords) eqn:E; [| reflexivity].
  apply existsb_exists in E as [kw [Hin Hc]].
  apply contains_spec in Hc. now apply H in Hc.
Qed.

(** C1.  A query in which a budget keyword occurs, as written or after
    lowercasing, is classified "detailed", whatever the remaining rules of
    [detect_detail_level] would answer: the budget rule comes first. *)
Theorem budget_keyword_forces_detailed (rest : string -> string) (q : string) :
  (exists kw, In kw budget_keywords /\
              (occurs_in kw q \/ occurs_in kw (lower q))) ->
  detect_detail_level rest q = "detailed".
Proof.
  intros [kw [Hin Hocc]].
  assert (Hlow : occurs_in kw (lower q)).
  { destruct Hocc as [H | H]; [| exact H].
    apply occurs_in_lower in H.
    now rewrite (budget_keywords_lowercase Hin) in H. }
  unfold detect_detail_level.
  replace (existsb _ budget_keywords) with true; [reflexivity |].
  symmetry. apply existsb_exists. exists kw. split; [exact Hin |].
  now apply contains_spec.
Qed.

Lemma budget_keyword_forces_detailed_witness :
  detect_detail_level (fun _ => "brief") "List all flats in Wakad under 50 LAKH"
  = "detailed".
Proof.
  apply budget_keyword_forces_detailed.
  exists "lakh". split.
  - simpl. tauto.
  - right. exists "list all flats in wakad under 50 ", "". reflexivity.
Defined.

(** The budget queries listed in the fix notes. *)
Example documented_budget_queries (rest : string -> string) :
  map (detect_detail_level rest)
    ["my budget is 50 lakh"; "I have budget of 1 crore";
     "what can I afford with 75 lakh"; "show properties under 50 lakh";
     "price range is 30-60 lakh"]
  = ["detailed"; "detailed"; "detailed"; "detailed"; "detailed"].
Proof. reflexivity. Qed.

(** Without a budget keyword the answer is that of the remaining rules. *)
Example documented_other_query (rest : string -> string) :
  detect_detail_level rest "show me apartments in viman nagar"
  = rest "show me apartments in viman nagar".
Proof. reflexivity. Qed.

End QueryPreprocessorFacts.

(** ** main.py: the location filter and the over-fetch *)

Module MainPyFacts.

Import Str StrFacts MainPy.
Local Open Scope string_scope.

Lemma mentions_location_spec (locs : list string) (r : SearchResult) :
  mentions_location (map lower locs) r = true <-> matches_some_location locs r.
Proof.
  unfold mentions_location, matches_some_location, occurs_in_ci.
  rewrite existsb_exists. split.
  - intros [l [Hin Hc]]. apply in_map_iff in Hin as [loc [<- Hin]].
    exists loc. split; [exact Hin | now apply contains_spec].
  - intros [loc [Hin Hocc]]. exists (lower loc). split.
    + now apply in_map.
    + now apply contains_spec.
Qed.

Lemma filter_nil_iff (A : Type) (f : A -> bool) (l : list A) :
  filter f l = [] <-> forall x, In x l -> f x = false.
Proof.
  induction l as [|a l IH]; simpl.
  - split; [intros _ x [] | reflexivity].
  - destruct (f a) eqn:E; split.
    + discriminate.
    + intros H. specialize (H a (or_introl eq_refl)). congruence.
    + intros H x [<- | Hx]; [exact E | now apply IH].
    + intros H. apply IH. intros x Hx. apply H. now right.
Qed.

Lemma mentions_location_with_spec (lower : string -> string)
    (locs : list string) (r : SearchResult) :
  mentions_location_with lower (map lower locs) r = true
  <-> matches_some_location_with lower locs r.
Proof.
  unfold mentions_location_with, matches_some_location_with.
  rewrite existsb_exists. split.
  - intros [l [Hin Hc]]. apply in_map_iff in Hin as [loc [<- Hin]].
    exists loc. split; [exact Hin | now apply contains_spec].
  - intros [loc [Hin Hocc]]. exists (lower loc). split.
    + now apply in_map.
    + now apply contains_spec.
Qed.

(** The filter of Part I that lowers with the ASCII mapping is the general
    one at that mapping. *)
Lemma filter_by_location_ascii (query_analysis : QueryAnalysis)
    (results : list SearchResult) :
  filter_by_location query_analysis results
  = filter_by_location_with Str.lower query_analysis results.
Proof. reflexivity. Qed.

(** C2.  Whatever [str.lower()] maps each string to: with at least one
    extracted location, the filter keeps exactly the candidates whose text
    mentions a requested location (ignoring case: the lowered location
    occurs in the lowered text) when there is one, returns the whole
    candidate list when there is none, and so never empties a non-empty
    candidate list. *)
Theorem location_filter_fallback (lower : string -> string)
    (locs : list string) (results : list SearchResult) :
  locs <> [] ->
  let out := filter_by_location_with lower {| locations := Some locs |} results in
  ((exists r, In r results /\ matches_some_location_with lower locs r) ->
     out = filter (mentions_location_with lower (map lower locs)) results /\
     (forall r, In r out <->
                In r results /\ matches_some_location_with lower locs r)) /\
  ((forall r, In r results -> ~ matches_some_location_with lower locs r) ->
     out = results) /\
  (results <> [] -> out <> []).
Proof.
  intros Hne out.
  set (f := mentions_location_with lower (map lower locs)).
  assert (Hout : out = match filter f results with
                       | [] => results
                       | _ :: _ => filter f results
                       end).
  { subst out. unfold filter_by_location_with, get_locations; simpl.
    destruct locs; [contradiction | reflexivity]. }
  assert (Hf : forall r, f r = true <-> matches_some_location_with lower locs r)
    by (intros r; apply mentions_location_with_spec).
  split; [| split].
  - intros [r [Hin Hm]].
    assert (Hr : In r (filter f results))
      by (apply filter_In; split; [exact Hin | now apply Hf]).
    assert (Heq : out = filter f results)
      by (rewrite Hout; destruct (filter f results); [destruct Hr | reflexivity]).
    split; [exact Heq |].
    intros r'. rewrite Heq, filter_In, Hf. reflexivity.
  - intros Hnone. rewrite Hout.
    replace (filter f results) with (@nil SearchResult); [reflexivity |].
    symmetry. apply filter_nil_iff. intros r Hin.
    destruct (f r) eqn:E; [| reflexivity].
    apply Hf in E. now apply Hnone in E.
  - intros Hres. rewrite Hout.
    destruct (filter f results); [exact Hres | discriminate].
Qed.

Lemma location_filter_fallback_witness :
  let wakad := {| chunk := 1; text := Some "Evergreen Heights, WAKAD" |} in
  let kharadi := {| chunk := 2; text := Some "Skyline Orchid, Kharadi" |} in
  filter_by_location_with Str.lower {| locations := Some ["Wakad"] |}
    [wakad; kharadi] = [wakad]
  /\ filter_by_location_with Str.lower {| locations := Some ["Baner"] |}
       [wakad; kharadi] = [wakad; kharadi].
Proof.
  intros wakad kharadi. split.
  - assert (Hne : ["Wakad"] <> []) by discriminate.
    destruct (location_filter_fallback Str.lower [wakad; kharadi] Hne)
      as [H _].
    refine (proj1 (H _)).
    exists wakad. split; [now left |].
    exists "Wakad". split; [now left |].
    exists "evergreen heights, ", "". reflexivity.
  - assert (Hne : ["Baner"] <> []) by discriminate.
    destruct (location_filter_fallback Str.lower [wakad; kharadi] Hne)
      as [_ [H _]].
    apply H. intros r Hin [loc [Hloc Hocc]].
    pose proof (proj2 (mentions_location_with_spec Str.lower _ _)
                  (ex_intro _ loc (conj Hloc Hocc))) as Hm.
    destruct Hin as [<- | [<- | []]]; vm_compute in Hm; discriminate.
Defined.

(** A location with an accented letter.  Under a lowercasing that lowers the
    accented capital, as [str.lower()] does, only the candidate that names
    the location is kept; the ASCII mapping leaves the capital as it is,
    finds no candidate and falls back to the whole list. *)
Example accented_location :
  let lane := {| chunk := 1; text := Some ("FLAT NEAR " ++ CAFE_LANE) |} in
  let kharadi := {| chunk := 2; text := Some "Skyline Orchid, Kharadi" |} in
  filter_by_location_with lower_latin {| locations := Some [Cafe_Lane] |}
    [lane; kharadi] = [lane]
  /\ filter_by_location_with Str.lower {| locations := Some [Cafe_Lane] |}
       [lane; kharadi] = [lane; kharadi].
Proof. split; reflexivity. Qed.

(** C3, as the code has it.  The vector store is asked for
    [max(top_k, 10)] candidates, and the filter works on what it returns;
    [max(top_k, 10)] is [max(top_k, top_k * 2)] only for [top_k = 5]. *)
Theorem overfetch_is_floor_of_ten (Embedding : Type)
    (vector_store_search : SearchCall Embedding -> list SearchResult)
    (request : QueryRequest) (embedding : Embedding)
    (query_analysis : QueryAnalysis) :
  search_top_k (search_call request embedding) = Z.max (top_k request) 10
  /\ search_and_filter vector_store_search request embedding query_analysis
     = filter_by_location query_analysis
         (vector_store_search
            {| query_embedding := embedding;
               search_top_k := Z.max (top_k request) 10 |})
  /\ (search_top_k (search_call request embedding)
      = Z.max (top_k request) (top_k request * 2)
      <-> top_k request = 5%Z).
Proof.
  split; [reflexivity | split; [reflexivity |]].
  unfold search_call; simpl. lia.
Qed.

(** C3, as the spec has it, fails: for [top_k = 3] the store is asked for 10
    candidates, not for [max(3, 6) = 6], and ten candidates come back. *)
Lemma overfetch_double_counterexample :
  let request := {| query := "flats"; top_k := 3 |} in
  search_top_k (search_call request tt)
    <> Z.max (top_k request) (top_k request * 2)
  /\ length (search_and_filter first_k_store request tt
               {| locations := None |}) = 10%nat.
Proof. split; [discriminate | reflexivity]. Qed.

End MainPyFacts.

(** ** document.sql: [match_real_estate] *)

Module SqlFacts.

Import Sql.

Section RealEstate.

Variable vector : Type.
Variable cosine_distance : vector -> vector -> Q.

Lemma in_firstn (A : Type) (n : nat) (l : list A) (x : A) :
  In x (firstn n l) -> In x l.
Proof.
  intros H. rewrite <- (firstn_skipn n l). apply in_or_app. now left.
Qed.

Lemma Qlt_bool_iff (x y : Q) : Qlt_bool x y = true <-> x < y.
Proof.
  unfold Qlt_bool. rewrite negb_true_iff. split.
  - intros H. apply Qnot_le_lt. intros Hle.
    apply Qle_bool_iff in Hle. congruence.
  - intros H. destruct (Qle_bool y x) eqn:E; [| reflexivity].
    apply Qle_bool_iff in E. exfalso. exact (Qlt_not_le _ _ H E).
Qed.

Lemma in_insert_desc (m x : Match) (l : list Match) :
  In x (insert_desc m l) <-> x = m \/ In x l.
Proof.
  induction l as [|y l IH]; simpl.
  - intuition.
  - destruct (Qle_bool (similarity m) (similarity y)); simpl.
    + rewrite IH. intuition.
    + intuition.
Qed.

Lemma insert_desc_sorted (m : Match) (l : list Match) :
  StronglySorted may_precede l -> StronglySorted may_precede (insert_desc m l).
Proof.
  induction 1 as [|y l Hsorted IH Hall]; simpl.
  - repeat constructor.
  - destruct (Qle_bool (similarity m) (similarity y)) eqn:E.
    + apply Qle_bool_iff in E. constructor; [exact IH |].
      apply Forall_forall. intros x Hx. apply in_insert_desc in Hx as [-> | Hx].
      * exact E.
      * rewrite Forall_forall in Hall. now apply Hall.
    + assert (Hlt : similarity y < similarity m).
      { apply Qnot_le_lt. intros Hle. apply Qle_bool_iff in Hle. congruence. }
      constructor; [now constructor |].
      constructor; [now apply Qlt_le_weak |].
      rewrite Forall_forall in *. intros x Hx.
      unfold may_precede in *.
      apply Qle_trans with (similarity y); [now apply Hall | now apply Qlt_le_weak].
Qed.

Lemma order_by_sorted (rows : list Match) :
  StronglySorted may_precede (order_by_similarity_desc rows).
Proof.
  induction rows as [|m rows IH]; simpl; [constructor |].
  now apply insert_desc_sorted.
Qed.

Lemma in_order_by (x : Match) (rows : list Match) :
  In x (order_by_similarity_desc rows) <-> In x rows.
Proof.
  induction rows as [|m rows IH]; simpl; [reflexivity |].
  rewrite in_insert_desc, IH. intuition.
Qed.

Lemma order_by_length (rows : list Match) :
  length (order_by_similarity_desc rows) = length rows.
Proof.
  induction rows as [|m rows IH]; simpl; [reflexivity |].
  rewrite <- IH. generalize (order_by_similarity_desc rows) as l.
  induction l as [|y l IHl]; simpl; [reflexivity |].
  destruct (Qle_bool (similarity m) (similarity y)); simpl; [now rewrite IHl | reflexivity].
Qed.

Lemma firstn_sorted (n : nat) (l : list Match) :
  StronglySorted may_precede l -> StronglySorted may_precede (firstn n l).
Proof.
  revert n; induction l as [|y l IH]; intros n Hs.
  - rewrite firstn_nil. constructor.
  - destruct n as [|n]; simpl; [constructor |].
    inversion Hs as [|? ? Hs' Hall]; subst.
    constructor; [now apply IH |].
    rewrite Forall_forall in *. intros x Hx. apply Hall.
    eapply in_firstn; eassumption.
Qed.

Lemma sorted_descending (l : list Match) :
  StronglySorted may_precede l -> descending l.
Proof.
  induction 1 as [|y l Hs IH Hall]; intros i j a b Hij Ha Hb.
  - destruct i; discriminate.
  - destruct j as [|j]; [lia |]. simpl in Hb.
    destruct i as [|i]; simpl in Ha.
    + injection Ha as <-. rewrite Forall_forall in Hall.
      apply Hall. eapply nth_error_In; eassumption.
    + apply (IH i j); [lia | assumption | assumption].
Qed.

Lemma in_select_where (table : list (Row vector)) (q : vector) (thr : Q)
    (m : Match) :
  In m (select_where cosine_distance table q thr) <->
  exists r, In r table /\ similarity_to cosine_distance q r = Some (similarity m)
            /\ thr < similarity m
            /\ match_id m = id r /\ match_content m = content r.
Proof.
  unfold select_where. rewrite in_flat_map. split.
  - intros [r [Hin Hm]]. exists r. split; [exact Hin |].
    destruct (similarity_to cosine_distance q r) as [s|]; [| destruct Hm].
    destruct (Qlt_bool thr s) eqn:E; [| destruct Hm].
    destruct Hm as [<- | []]. simpl. apply Qlt_bool_iff in E. auto.
  - intros [r [Hin [Hs [Hlt [Hid Hc]]]]]. exists r. split; [exact Hin |].
    rewrite Hs. apply Qlt_bool_iff in Hlt. rewrite Hlt. left.
    destruct m; simpl in *. now subst.
Qed.

(** What a successful call of [match_real_estate] returns. *)
Lemma match_real_estate_some (table : list (Row vector)) (q : vector)
    (thr : Q) (cnt : Z) (ms : list Match) :
  match_real_estate cosine_distance table q thr cnt = Some ms ->
  (0 <= cnt)%Z /\ (Z.of_nat (length ms) <= cnt)%Z /\ descending ms /\
  (forall m, In m ms -> In m (select_where cosine_distance table q thr)).
Proof.
  unfold match_real_estate. destruct (cnt <? 0)%Z eqn:E; [discriminate |].
  apply Z.ltb_ge in E. intros [= <-]. split; [exact E |]. split; [| split].
  - rewrite length_firstn. lia.
  - apply sorted_descending, firstn_sorted, order_by_sorted.
  - intros m Hm. apply in_firstn in Hm.
    exact (proj1 (in_order_by _ _) Hm).
Qed.

End RealEstate.

End SqlFacts.

(** ** The JavaScript service *)

Module JsFacts.

Import Sql SqlFacts Js.
Local Open Scope string_scope.

Section Service.

Variable vector : Type.
Variable ext : Externals vector.

Lemma descending_nil : descending (@nil Match).
Proof. intros i j a b _ Ha. destruct i; discriminate. Qed.

(** [matchEmbedding] hands back the rows of the function, or [] when the
    call failed; it leaves everything but the console as it was. *)
Lemma matchEmbedding_data (q : vector) (thr : Q) (cnt : Z) (w : World vector) :
  fst (matchEmbedding ext q thr cnt w) = []
  \/ match_real_estate (cosine_distance ext) (real_estate w) q thr cnt
     = Some (fst (matchEmbedding ext q thr cnt w)).
Proof.
  unfold matchEmbedding, rpc_match_real_estate.
  destruct (supabase_reachable ext); [| now left].
  destruct (match_real_estate _ _ _ _ _); [now right | now left].
Qed.

Lemma matchEmbedding_world (q : vector) (thr : Q) (cnt : Z) (w : World vector) :
  let w1 := snd (matchEmbedding ext q thr cnt w) in
  chatMessages w1 = chatMessages w /\ chat_requests w1 = chat_requests w
  /\ real_estate w1 = real_estate w.
Proof.
  unfold matchEmbedding.
  destruct (rpc_match_real_estate ext w q thr cnt); simpl; auto.
Qed.

Lemma documentSemanticSearch_embedded (query : string) (q : vector)
    (w : World vector) :
  embeddings_create ext query = Some q ->
  documentSemanticSearch ext query w
  = (Fulfilled (fst (getChatCompletions ext
                       (join chunk_separator
                          (map (@match_content) (fst (matchEmbedding ext q (3 # 4) 5 w))))
                       query (snd (matchEmbedding ext q (3 # 4) 5 w)))),
     snd (getChatCompletions ext
            (join chunk_separator
               (map (@match_content) (fst (matchEmbedding ext q (3 # 4) 5 w))))
            query (snd (matchEmbedding ext q (3 # 4) 5 w)))).
Proof.
  intros H. unfold documentSemanticSearch, generateEmbedding. rewrite H.
  destruct (matchEmbedding ext q (3 # 4) 5 w) as [matches w1]; simpl.
  destruct (getChatCompletions ext _ query w1); reflexivity.
Qed.

Lemma getChatCompletions_request (text query : string) (w : World vector) :
  chat_requests (snd (getChatCompletions ext text query w))
  = (chat_requests w ++ [chatMessages w ++ [user_message text query]])%list.
Proof.
  unfold getChatCompletions; simpl.
  destruct (chat_completions_create ext _); reflexivity.
Qed.

(** C4.  [match_real_estate] returns at most [match_count] rows in
    descending order of similarity (and fails only on a negative count);
    the matches that [documentSemanticSearch] works with, fetched with
    count 5, are at most 5 and in descending order. *)
Theorem search_results_descending_and_capped (w : World vector)
    (query_embedding : vector) (match_threshold : Q) (match_count : Z) :
  match match_real_estate (cosine_distance ext) (real_estate w)
          query_embedding match_threshold match_count with
  | Some rows =>
      (Z.of_nat (length rows) <= match_count)%Z /\ descending rows
  | None => (match_count < 0)%Z
  end
  /\ (length (fst (matchEmbedding ext query_embedding (3 # 4) 5 w)) <= 5)%nat
  /\ descending (fst (matchEmbedding ext query_embedding (3 # 4) 5 w)).
Proof.
  split.
  - destruct (match_real_estate _ _ _ _ _) as [rows|] eqn:E.
    + apply match_real_estate_some in E. tauto.
    + unfold match_real_estate in E.
      destruct (match_count <? 0)%Z eqn:Hc; [now apply Z.ltb_lt | discriminate].
  - destruct (matchEmbedding_data query_embedding (3 # 4) 5 w) as [-> | E].
    + split; [simpl; lia | apply descending_nil].
    + apply match_real_estate_some in E. split; [lia | tauto].
Qed.

(** C10.  Every match that [documentSemanticSearch] retrieves has similarity
    above 0.75; when no chunk of the table is that similar to the query, no
    match is retrieved and the chat completion is requested with the empty
    content, ["Content: . Question: <query>"], after the accumulated
    conversation. *)
Theorem similarity_cutoff_075 (query : string) (q : vector) (w : World vector) :
  embeddings_create ext query = Some q ->
  (forall m, In m (fst (matchEmbedding ext q (3 # 4) 5 w)) ->
             3 # 4 < similarity m)
  /\ ((forall r s, In r (real_estate w) ->
         similarity_to (cosine_distance ext) q r = Some s -> s <= 3 # 4) ->
      fst (matchEmbedding ext q (3 # 4) 5 w) = []
      /\ chat_requests (snd (documentSemanticSearch ext query w))
         = (chat_requests w ++ [chatMessages w ++ [user_message "" query]])%list).
Proof.
  intros Hemb.
  assert (Habove : forall m, In m (fst (matchEmbedding ext q (3 # 4) 5 w)) ->
            exists r, In r (real_estate w)
              /\ similarity_to (cosine_distance ext) q r = Some (similarity m)
              /\ 3 # 4 < similarity m).
  { intros m Hm.
    destruct (matchEmbedding_data q (3 # 4) 5 w) as [E | E].
    - rewrite E in Hm. destruct Hm.
    - apply match_real_estate_some in E as [_ [_ [_ Hsel]]].
      apply Hsel, in_select_where in Hm as [r [Hin [Hs [Hlt _]]]].
      now exists r. }
  split.
  - intros m Hm. apply Habove in Hm as [r [_ [_ Hlt]]]. exact Hlt.
  - intros Hlow.
    assert (Hnil : fst (matchEmbedding ext q (3 # 4) 5 w) = []).
    { destruct (fst (matchEmbedding ext q (3 # 4) 5 w)) as [|m ms] eqn:E;
        [reflexivity |].
      destruct (Habove m (or_introl eq_refl)) as [r [Hin [Hs Hlt]]].
      exfalso. exact (Qlt_not_le _ _ Hlt (Hlow r _ Hin Hs)). }
    split; [exact Hnil |].
    rewrite (documentSemanticSearch_embedded query w Hemb). cbn [snd].
    rewrite getChatCompletions_request, Hnil.
    destruct (matchEmbedding_world q (3 # 4) 5 w) as [-> [-> _]].
    reflexivity.
Qed.

(** C5, as the code has it.  When the embedding call fails,
    [documentSemanticSearch] logs the error and is fulfilled with
    [undefined]; neither the conversation nor the chat endpoint is touched.
    Its caller, the [/api/search] handler, answers with status 500 and the
    body [{ error: "Something went wrong" }]. *)
Theorem embedding_failure_swallowed (query : string) (w : World vector) :
  embeddings_create ext query = None ->
  documentSemanticSearch ext query w
    = (Fulfilled None, console_error ErrorDuringSemanticSearch w)
  /\ fst (api_search ext query w)
     = {| status := 500; body := ErrorBody "Something went wrong" |}
  /\ chatMessages (snd (api_search ext query w)) = chatMessages w
  /\ chat_requests (snd (api_search ext query w)) = chat_requests w.
Proof.
  intros H.
  assert (E : documentSemanticSearch ext query w
              = (Fulfilled None, console_error ErrorDuringSemanticSearch w)).
  { unfold documentSemanticSearch, generateEmbedding. now rewrite H. }
  split; [exact E |].
  unfold api_search. rewrite E. simpl. auto.
Qed.

Lemma getChatCompletions_result (text query : string) (w : World vector) :
  let sent := (chatMessages w ++ [user_message text query])%list in
  fst (getChatCompletions ext text query w) = chat_completions_create ext sent
  /\ chatMessages (snd (getChatCompletions ext text query w))
     = (sent ++ match chat_completions_create ext sent with
                | Some message => [message]
                | None => []
                end)%list.
Proof.
  unfold getChatCompletions; simpl.
  destruct (chat_completions_create ext _); simpl; split;
    try reflexivity; now rewrite app_nil_r.
Qed.

(** One request leaves [chatMessages] extended, never shortened. *)
Lemma api_search_extends (question : string) (w : World vector) :
  exists added,
    chatMessages (snd (api_search ext question w))
    = (chatMessages w ++ added)%list.
Proof.
  unfold api_search.
  destruct (embeddings_create ext question) as [q|] eqn:E.
  - rewrite (documentSemanticSearch_embedded question w E).
    set (text := join _ _). set (w1 := snd (matchEmbedding _ _ _ _ _)).
    assert (H1 : chatMessages w1 = chatMessages w)
      by apply (matchEmbedding_world q (3 # 4) 5 w).
    destruct (getChatCompletions_result text question w1) as [_ Hc].
    rewrite H1 in Hc.
    exists ([user_message text question]
            ++ match chat_completions_create ext
                       (chatMessages w ++ [user_message text question]) with
               | Some message => [message]
               | None => []
               end)%list.
    rewrite app_assoc, <- Hc.
    destruct (fst (getChatCompletions ext text question w1)); reflexivity.
  - exists []. rewrite app_nil_r.
    unfold documentSemanticSearch, generateEmbedding. now rewrite E.
Qed.

(** C8, as the code has it.  [chatMessages] is state of the module: served
    requests only ever extend it, and a request whose embedding succeeds
    sends the chat endpoint the whole accumulated array followed by its own
    user message, is answered with the endpoint's reply to that array, and
    leaves both messages in [chatMessages] for the requests that follow. *)
Theorem chat_history_accumulates (questions : list string) (w : World vector) :
  (exists added,
     chatMessages (snd (serve ext questions w))
     = (chatMessages w ++ added)%list)
  /\ forall query q,
       embeddings_create ext query = Some q ->
       let contents :=
         join chunk_separator
           (map (@match_content) (fst (matchEmbedding ext q (3 # 4) 5 w))) in
       let sent := (chatMessages w ++ [user_message contents query])%list in
       let w' := snd (documentSemanticSearch ext query w) in
       chat_requests w' = (chat_requests w ++ [sent])%list
       /\ fst (documentSemanticSearch ext query w)
          = Fulfilled (chat_completions_create ext sent)
       /\ chatMessages w'
          = (sent ++ match chat_completions_create ext sent with
                     | Some message => [message]
                     | None => []
                     end)%list.
Proof.
  split.
  - revert w. induction questions as [|question rest IH]; intros w; simpl.
    + exists []. now rewrite app_nil_r.
    + destruct (api_search_extends question w) as [a1 H1].
      destruct (api_search ext question w) as [r w1]; simpl in H1.
      destruct (IH w1) as [a2 H2].
      destruct (serve ext rest w1) as [rs w2]; simpl in *.
      exists (a1 ++ a2)%list. now rewrite H2, H1, app_assoc.
  - intros query q E contents sent w'. subst w'.
    rewrite (documentSemanticSearch_embedded query w E). cbn [fst snd].
    fold contents.
    set (w1 := snd (matchEmbedding ext q (3 # 4) 5 w)).
    destruct (matchEmbedding_world q (3 # 4) 5 w) as [Hc [Hr _]].
    fold w1 in Hc, Hr.
    destruct (getChatCompletions_result contents query w1) as [Hfst Hsnd].
    rewrite getChatCompletions_request, Hfst, Hsnd, Hc, Hr.
    auto.
Qed.

(** *** Ingestion *)

Lemma number_rows_length (next : Z) (data : list (string * vector)) :
  length (number_rows next data) = length data.
Proof.
  revert next; induction data as [|[c e] data IH]; intros next; simpl;
    [reflexivity | now rewrite IH].
Qed.

Lemma embed_chunks_length (chunks : list string) (data : list (string * vector)) :
  embed_chunks ext chunks = Some data -> length data = length chunks.
Proof.
  revert data; induction chunks as [|c chunks IH]; intros data; simpl.
  - now intros [= <-].
  - destruct (generateEmbedding ext c); [| discriminate].
    destruct (embed_chunks ext chunks) as [d|]; [| discriminate].
    intros [= <-]. simpl. now rewrite (IH d).
Qed.

(** C6, as the code has it.  A successful ingestion appends one row per
    chunk to [real_estate], under fresh ids, and removes nothing: ingesting
    the same document a second time appends the same chunks once more, so
    the table grows by twice the number of chunks. *)
Theorem ingestion_appends (splitContent : string -> list string)
    (content : string) (data : list (string * vector)) (w : World vector) :
  supabase_reachable ext = true ->
  embed_chunks ext (splitContent content) = Some data ->
  let once := snd (documentEmbedding ext splitContent (Some content) w) in
  let twice := snd (documentEmbedding ext splitContent (Some content) once) in
  real_estate once
    = (real_estate w ++ number_rows (real_estate_id_seq w) data)%list
  /\ real_estate twice
     = (real_estate once
        ++ number_rows (real_estate_id_seq w + Z.of_nat (length data)) data)%list
  /\ length (real_estate once)
     = (length (real_estate w) + length (splitContent content))%nat
  /\ length (real_estate twice)
     = (length (real_estate w) + 2 * length (splitContent content))%nat.
Proof.
  intros Hup Hdata once twice.
  assert (Hstep : forall w0,
            snd (documentEmbedding ext splitContent (Some content) w0)
            = storeEmbeddingToSupabase ext data w0).
  { intros w0. unfold documentEmbedding. now rewrite Hdata. }
  assert (H1 : real_estate once
               = (real_estate w ++ number_rows (real_estate_id_seq w) data)%list).
  { subst once. rewrite Hstep. unfold storeEmbeddingToSupabase.
    now rewrite Hup. }
  assert (Hseq : real_estate_id_seq once
                 = (real_estate_id_seq w + Z.of_nat (length data))%Z).
  { subst once. rewrite Hstep. unfold storeEmbeddingToSupabase.
    now rewrite Hup. }
  assert (H2 : real_estate twice
               = (real_estate once
                  ++ number_rows (real_estate_id_seq w + Z.of_nat (length data))
                       data)%list).
  { subst twice. rewrite Hstep. unfold storeEmbeddingToSupabase.
    rewrite Hup. simpl. now rewrite Hseq. }
  pose proof (embed_chunks_length _ Hdata) as Hlen.
  repeat split; try assumption.
  - rewrite H1, length_app, number_rows_length. lia.
  - rewrite H2, H1, !length_app, !number_rows_length. lia.
Qed.

End Service.

Lemma similarity_cutoff_075_witness :
  let w := module_loaded JsExamples.one_chunk_table 2 in
  fst (matchEmbedding JsExamples.all_up 0%nat (3 # 4) 5 w) = []
  /\ chat_requests (snd (documentSemanticSearch JsExamples.all_up
                           "flats in Baner" w))
     = [[systemPrompt; user_message "" "flats in Baner"]].
Proof.
  intros w.
  assert (Hemb : embeddings_create JsExamples.all_up "flats in Baner" = Some 0%nat)
    by reflexivity.
  destruct (similarity_cutoff_075 JsExamples.all_up "flats in Baner" w Hemb)
    as [_ H].
  apply H. intros r s [<- | []] [= <-]. vm_compute. discriminate.
Defined.

(** C5, as the spec has it, fails: with the Embedding Service down,
    [documentSemanticSearch] is fulfilled, with [undefined], and not
    rejected. *)
Lemma embedding_failure_counterexample :
  let w := module_loaded JsExamples.one_chunk_table 2 in
  fst (documentSemanticSearch JsExamples.embedding_down "flats in Wakad" w)
    = Fulfilled None
  /\ forall reason,
       fst (documentSemanticSearch JsExamples.embedding_down "flats in Wakad" w)
       <> Rejected reason.
Proof. split; [reflexivity | discriminate]. Qed.

Lemma embedding_failure_swallowed_witness :
  fst (api_search JsExamples.embedding_down "flats in Wakad"
         (module_loaded JsExamples.one_chunk_table 2))
  = {| status := 500; body := ErrorBody "Something went wrong" |}.
Proof.
  refine (proj1 (proj2 (embedding_failure_swallowed JsExamples.embedding_down
                          "flats in Wakad" _ _))).
  reflexivity.
Defined.

(** C8, as the spec has it, fails: the same question asked twice of the same
    process gets two different answers, because the second request is sent
    together with the conversation the first one left in [chatMessages]. *)
Lemma module_state_counterexample :
  let w := module_loaded JsExamples.one_chunk_table 2 in
  let served :=
    serve JsExamples.all_up ["flats in Wakad"; "flats in Wakad"] w in
  map body (fst served)
    = [ContentBody "Evergreen Heights is in Wakad.";
       ContentBody "As I said, Evergreen Heights."]
  /\ length (chatMessages w) = 1%nat
  /\ length (chatMessages (snd served)) = 5%nat.
Proof. repeat split. Qed.

Lemma chat_history_accumulates_witness :
  let w := module_loaded JsExamples.one_chunk_table 2 in
  chat_requests (snd (documentSemanticSearch JsExamples.all_up "flats in Wakad" w))
  = [[systemPrompt; user_message "" "flats in Wakad"]].
Proof.
  intros w.
  refine (proj1 (proj2 (chat_history_accumulates JsExamples.all_up
                          ["flats in Wakad"] w) "flats in Wakad" 0%nat _)).
  reflexivity.
Defined.

(** C6, as the spec has it, fails: one chunk ingested twice into an empty
    table leaves two rows, with the same content under two ids. *)
Lemma reingestion_counterexample :
  let w := module_loaded (@nil (Row nat)) 1 in
  let ingest :=
    documentEmbedding JsExamples.all_up JsExamples.one_chunk
      (Some "Evergreen Heights, Wakad") in
  length (real_estate (snd (ingest w))) = 1%nat
  /\ length (real_estate (snd (ingest (snd (ingest w))))) = 2%nat
  /\ map (@Sql.content nat) (real_estate (snd (ingest (snd (ingest w)))))
     = [Some "Evergreen Heights, Wakad"; Some "Evergreen Heights, Wakad"]
  /\ map (@id nat) (real_estate (snd (ingest (snd (ingest w))))) = [1%Z; 2%Z].
Proof. repeat split. Qed.

Lemma ingestion_appends_witness :
  let w := module_loaded (@nil (Row nat)) 1 in
  let once :=
    snd (documentEmbedding JsExamples.all_up JsExamples.one_chunk
           (Some "Evergreen Heights, Wakad") w) in
  let twice :=
    snd (documentEmbedding JsExamples.all_up JsExamples.one_chunk
           (Some "Evergreen Heights, Wakad") once) in
  length (real_estate twice) = 2%nat.
Proof.
  intros w once twice.
  refine (proj2 (proj2 (proj2
            (@ingestion_appends nat JsExamples.all_up JsExamples.one_chunk
               "Evergreen Heights, Wakad"
               [("Evergreen Heights, Wakad", 0%nat)] w _ _)))).
  - reflexivity.
  - reflexivity.
Defined.

End JsFacts.

(** ** The text splitter: scenario C *)

Module TextSplitterFacts.

Import TextSplitter.
Local Open Scope string_scope.
Local Open Scope nat_scope.

Lemma length_take (n : nat) (s : string) :
  String.length (take n s) = Nat.min n (String.length s).
Proof.
  revert s; induction n as [|n IH]; intros [|c s]; simpl; try reflexivity.
  now rewrite IH.
Qed.

Lemma length_drop (n : nat) (s : string) :
  String.length (drop n s) = String.length s - n.
Proof.
  revert s; induction n as [|n IH]; intros [|c s]; simpl; try reflexivity.
  now rewrite IH.
Qed.

Lemma take_take (a b : nat) (s : string) :
  a <= b -> take a (take b s) = take a s.
Proof.
  revert b s; induction a as [|a IH]; intros b s Hab; [reflexivity |].
  destruct b as [|b]; [lia |].
  destruct s as [|c s]; simpl; [reflexivity |].
  rewrite IH; [reflexivity | lia].
Qed.

Lemma drop_take (k n : nat) (s : string) :
  drop k (take n s) = take (n - k) (drop k s).
Proof.
  revert n s; induction k as [|k IH]; intros n s; simpl.
  - now rewrite Nat.sub_0_r.
  - destruct n as [|n]; destruct s as [|c s]; simpl; try reflexivity.
    + now destruct (n - k).
    + apply IH.
Qed.

Lemma drop_drop (a b : nat) (s : string) :
  drop a (drop b s) = drop (b + a) s.
Proof.
  revert s; induction b as [|b IH]; intros s; simpl; [reflexivity |].
  destruct s as [|c s]; [now destruct a | apply IH].
Qed.

Lemma windows_step (fuel size overlap : nat) (text : string) :
  size < String.length text ->
  windows (S fuel) size overlap text
  = take size text :: windows fuel size overlap (drop (size - overlap) text).
Proof.
  intros H. cbn [windows].
  destruct (Nat.eqb_spec (String.length text) 0) as [E | _]; [lia |].
  destruct (Nat.leb_spec (String.length text) size) as [E | _]; [lia |].
  reflexivity.
Qed.

Lemma windows_last (fuel size overlap : nat) (text : string) :
  0 < String.length text <= size ->
  windows (S fuel) size overlap text = [text].
Proof.
  intros H. cbn [windows].
  destruct (Nat.eqb_spec (String.length text) 0) as [E | _]; [lia |].
  destruct (Nat.leb_spec (String.length text) size) as [_ | E]; [| lia].
  reflexivity.
Qed.

Lemma some_eq (A : Type) (x y : A) : Some x = Some y -> x = y.
Proof. congruence. Qed.

(** The tail of a full window is the head of the window that follows. *)
Lemma window_overlap (size overlap : nat) (rest : string) :
  overlap <= size <= String.length rest ->
  last_chars overlap (take size rest) = take overlap (drop (size - overlap) rest)
  /\ String.length (last_chars overlap (take size rest)) = overlap.
Proof.
  intros H. unfold last_chars.
  rewrite length_take, Nat.min_l by lia.
  rewrite drop_take.
  replace (size - (size - overlap)) with overlap by lia.
  split; [reflexivity |].
  rewrite length_take, length_drop. lia.
Qed.

(** C7.  A document of 1200 characters is split into five chunks, numbered 0
    to 4, that start 270 characters apart; the last 30 characters of each
    chunk are the first 30 characters of the next. *)
Theorem split_1200_into_5_chunks (text : string) :
  String.length text = 1200 ->
  let chunks := splitContent text in
  map chunkIndex chunks = [0; 1; 2; 3; 4]
  /\ map pageContent chunks
     = [take 300 text; take 300 (drop 270 text); take 300 (drop 540 text);
        take 300 (drop 810 text); drop 1080 text]
  /\ forall i a b,
       nth_error chunks i = Some a -> nth_error chunks (S i) = Some b ->
       last_chars 30 (pageContent a) = take 30 (pageContent b)
       /\ String.length (last_chars 30 (pageContent a)) = 30.
Proof.
  intros Hlen chunks.
  assert (Hw : windows (String.length text) chunkSize chunkOverlap text
               = [take 300 text; take 300 (drop 270 text);
                  take 300 (drop 540 text); take 300 (drop 810 text);
                  drop 1080 text]).
  { rewrite Hlen. unfold chunkSize, chunkOverlap.
    rewrite windows_step by lia.
    rewrite windows_step by (rewrite length_drop; lia).
    rewrite windows_step by (rewrite !length_drop; lia).
    rewrite windows_step by (rewrite !length_drop; lia).
    rewrite windows_last by (rewrite !length_drop; lia).
    change (300 - 30) with 270.
    rewrite !drop_drop. reflexivity. }
  assert (Hc : chunks
               = [ {| chunkIndex := 0; pageContent := take 300 text |};
                   {| chunkIndex := 1; pageContent := take 300 (drop 270 text) |};
                   {| chunkIndex := 2; pageContent := take 300 (drop 540 text) |};
                   {| chunkIndex := 3; pageContent := take 300 (drop 810 text) |};
                   {| chunkIndex := 4; pageContent := drop 1080 text |} ]).
  { subst chunks. unfold splitContent. rewrite Hw. reflexivity. }
  rewrite Hc. split; [reflexivity | split; [reflexivity |]].
  assert (Hfull : forall k, k + 300 <= 1200 ->
            last_chars 30 (take 300 (drop k text))
              = take 30 (drop (k + 270) text)
            /\ String.length (last_chars 30 (take 300 (drop k text))) = 30).
  { intros k Hk.
    destruct (@window_overlap 300 30 (drop k text)) as [H1 H2].
    - rewrite length_drop. lia.
    - change (300 - 30) with 270 in H1. rewrite drop_drop in H1. now split. }
  intros i a b Ha Hb.
  destruct i as [|[|[|[|i]]]]; cbn [nth_error] in Ha, Hb;
    try (apply some_eq in Ha, Hb; subst a b; cbv [pageContent]).
  - rewrite take_take by lia. apply (Hfull 0). lia.
  - rewrite take_take by lia. apply (Hfull 270). lia.
  - rewrite take_take by lia. apply (Hfull 540). lia.
  - apply (Hfull 810). lia.
  - destruct i; discriminate.
Qed.

Lemma split_1200_into_5_chunks_witness :
  map chunkIndex (splitContent (replicate 1200 "a")) = [0; 1; 2; 3; 4].
Proof.
  refine (proj1 (split_1200_into_5_chunks (replicate 1200 "a") _)).
  vm_compute. reflexivity.
Defined.

End TextSplitterFacts.

(** ** The agent runtime: the loop bound *)

Module AgentRuntimeFacts.

Import AgentRuntime.
Local Open Scope nat_scope.

Section Machine.

Variable K : nat.
Variable complete : nat -> list Message -> LLMResponse.
Variable execute : ToolCall -> ToolResult.
Variable new_message : string.

(** The transition and the run of this request. *)
Local Notation "'next' s" := (step K complete execute new_message s)
  (at level 10, s at level 9).
Local Notation "'after' n 'from' s" := (run K complete execute n new_message s)
  (at level 10, n at level 9, s at level 9).

Lemma step_consistent (s : State) :
  consistent K s -> consistent K (next s).
Proof.
  unfold consistent, step.
  destruct (phase s) eqn:P; intros H.
  - cbn. lia.
  - destruct (complete (llm_calls s) (history s)).
    + cbn. lia.
    + destruct (Nat.ltb_spec (iterations s) K); cbn; lia.
    + cbn. lia.
  - cbn. exact H.
  - destruct (execute call); [cbn; lia |].
    destruct (1 <=? tool_errors s); cbn; lia.
  - rewrite P. exact H.
  - rewrite P. exact H.
Qed.

Lemma step_decreases (s : State) :
  terminal s = false -> remaining K (next s) < remaining K s.
Proof.
  unfold terminal, remaining, step.
  destruct (phase s) eqn:P; intros H; try discriminate.
  - cbn. lia.
  - destruct (complete (llm_calls s) (history s)).
    + cbn. lia.
    + destruct (Nat.ltb_spec (iterations s) K); cbn; lia.
    + cbn. lia.
  - cbn. lia.
  - destruct (execute call); [cbn; lia |].
    destruct (1 <=? tool_errors s); cbn; lia.
Qed.

Lemma step_terminal (s : State) : terminal s = true -> next s = s.
Proof.
  unfold terminal, step.
  destruct (phase s); intros H; try discriminate; reflexivity.
Qed.

Lemma run_terminal (n : nat) (s : State) : terminal s = true -> after n from s = s.
Proof.
  induction n as [|n IH]; intros H; simpl; [reflexivity |].
  rewrite (step_terminal s H). now apply IH.
Qed.

Lemma run_consistent (n : nat) (s : State) :
  consistent K s -> consistent K (after n from s).
Proof.
  revert s; induction n as [|n IH]; intros s H; simpl; [exact H |].
  apply IH. now apply step_consistent.
Qed.

Lemma run_reaches_terminal (n : nat) (s : State) :
  remaining K s <= n -> terminal (after n from s) = true.
Proof.
  revert s; induction n as [|n IH]; intros s Hrem.
  - simpl. destruct (terminal s) eqn:T; [reflexivity |].
    unfold terminal, remaining in *. destruct (phase s); try discriminate; lia.
  - simpl. destruct (terminal s) eqn:T.
    + rewrite (step_terminal s T). now rewrite (run_terminal n s T).
    + apply IH. pose proof (step_decreases s T). lia.
Qed.

Lemma consistent_calls (s : State) :
  consistent K s -> llm_calls s <= K + 1.
Proof. unfold consistent. destruct (phase s); lia. Qed.

(** C9.  Whatever the LLM Service and the tools answer, a request reaches
    [Done] or [Failed] within [3 * K + 2] transitions, and at no point of the
    run have more than [K + 1] calls of the LLM Service been made. *)
Theorem agent_loop_bounded (trimmed_history : list Message) :
  let final := after (3 * K + 2) from (initial trimmed_history) in
  (phase final = Done \/ phase final = Failed)
  /\ llm_calls final <= K + 1
  /\ forall n, llm_calls (after n from (initial trimmed_history)) <= K + 1.
Proof.
  assert (Hinit : consistent K (initial trimmed_history))
    by (unfold consistent; cbn; lia).
  assert (Hcalls : forall n, llm_calls (after n from (initial trimmed_history)) <= K + 1)
    by (intros n; apply consistent_calls, run_consistent, Hinit).
  intros final. split; [| split; [apply Hcalls | exact Hcalls]].
  assert (T : terminal final = true)
    by (apply run_reaches_terminal; unfold remaining; cbn; lia).
  unfold terminal in T. destruct (phase final); try discriminate; auto.
Qed.

End Machine.

(** The bound is reached: a model that keeps asking for tools is called
    [default_K + 1 = 4] times and the request fails. *)
Example always_tool_call_uses_four_calls :
  let final :=
    run default_K always_tool_call echo_tool 11 "2 BHK in Wakad" (initial []) in
  phase final = Failed /\ llm_calls final = 4 /\ iterations final = 3
  /\ answer final = Some apology.
Proof. repeat split. Qed.

(** A model that answers at its third call ends in [Done] after two tool
    iterations. *)
Example answer_after_two_tools :
  let final :=
    run default_K answers_third_call echo_tool 11 "2 BHK in Wakad" (initial []) in
  phase final = Done /\ llm_calls final = 3 /\ iterations final = 2
  /\ map role (history final) = [user; tool; tool; assistant].
Proof. repeat split. Qed.

End AgentRuntimeFacts.

(** ** document.sql: which rows [match_real_estate] returns *)

Module SqlMore.

Import Sql SqlFacts.

Section RealEstate.

Variable vector : Type.
Variable cosine_distance : vector -> vector -> Q.

Lemma insert_desc_perm (m : Match) (l : list Match) :
  Permutation (m :: l) (insert_desc m l).
Proof.
  induction l as [|x l IH]; simpl; [reflexivity |].
  destruct (Qle_bool (similarity m) (similarity x)); [| reflexivity].
  rewrite perm_swap. now apply perm_skip.
Qed.

Lemma order_by_perm (rows : list Match) :
  Permutation rows (order_by_similarity_desc rows).
Proof.
  induction rows as [|m rows IH]; simpl; [reflexivity |].
  rewrite <- insert_desc_perm. now apply perm_skip.
Qed.

(** In a sorted list, what [limit] keeps precedes what it drops. *)
Lemma sorted_firstn_skipn (n : nat) (l : list Match) (a b : Match) :
  StronglySorted may_precede l ->
  In a (firstn n l) -> In b (skipn n l) -> may_precede a b.
Proof.
  revert n; induction l as [|x l IH]; intros n Hs Ha Hb.
  - rewrite firstn_nil in Ha. destruct Ha.
  - destruct n as [|n]; [destruct Ha |].
    inversion Hs as [|? ? Hs' Hall]; subst. simpl in Ha, Hb.
    destruct Ha as [<- | Ha].
    + rewrite Forall_forall in Hall. apply Hall.
      rewrite <- (firstn_skipn n l). apply in_or_app. now right.
    + now apply (IH n).
Qed.

Lemma match_real_estate_limit (table : list (Row vector)) (q : vector)
    (thr : Q) (cnt : Z) (rows : list Match) :
  match_real_estate cosine_distance table q thr cnt = Some rows ->
  (0 <= cnt)%Z
  /\ rows = firstn (Z.to_nat cnt)
              (order_by_similarity_desc (select_where cosine_distance table q thr)).
Proof.
  unfold match_real_estate.
  destruct (Z.ltb_spec cnt 0); [discriminate |]. intros [= <-]. now split.
Qed.

(** X1.  The function keeps the best rows: the rows it returns and the rows the
    [limit] drops are together the rows above the threshold, and no dropped
    row is more similar to the query than a returned one. *)
Theorem match_real_estate_keeps_best (table : list (Row vector))
    (query_embedding : vector) (match_threshold : Q) (match_count : Z)
    (rows : list Match) :
  match_real_estate cosine_distance table query_embedding match_threshold
    match_count = Some rows ->
  exists dropped,
    Permutation (rows ++ dropped)
      (select_where cosine_distance table query_embedding match_threshold)
    /\ forall a b, In a rows -> In b dropped -> similarity b <= similarity a.
Proof.
  intros H. apply match_real_estate_limit in H as [_ ->].
  set (sorted := order_by_similarity_desc _).
  exists (skipn (Z.to_nat match_count) sorted). split.
  - rewrite firstn_skipn. symmetry. apply order_by_perm.
  - intros a b Ha Hb.
    apply (@sorted_firstn_skipn (Z.to_nat match_count) sorted a b);
      [apply order_by_sorted | exact Ha | exact Hb].
Qed.

Lemma select_where_length (table : list (Row vector)) (q : vector) (thr : Q) :
  (length (select_where cosine_distance table q thr) <= length table)%nat.
Proof.
  unfold select_where. induction table as [|r table IH]; simpl; [lia |].
  rewrite length_app.
  destruct (similarity_to cosine_distance q r) as [s|]; simpl; [| lia].
  destruct (Qlt_bool thr s); simpl; lia.
Qed.

(** X2.  For a count that is not negative the function returns exactly
    [min(match_count, n)] rows, [n] being the number of rows above the
    threshold: fewer than asked when there are not enough, never more than
    the table holds. *)
Theorem match_real_estate_count (table : list (Row vector))
    (query_embedding : vector) (match_threshold : Q) (match_count : Z) :
  (0 <= match_count)%Z ->
  exists rows,
    match_real_estate cosine_distance table query_embedding match_threshold
      match_count = Some rows
    /\ length rows
       = Nat.min (Z.to_nat match_count)
           (length (select_where cosine_distance table query_embedding
                      match_threshold))
    /\ (length rows <= length table)%nat.
Proof.
  intros Hc. unfold match_real_estate.
  destruct (Z.ltb_spec match_count 0) as [Hneg | _]; [lia |].
  eexists. split; [reflexivity |].
  rewrite length_firstn, order_by_length.
  pose proof (select_where_length table query_embedding match_threshold).
  split; [reflexivity | lia].
Qed.

Lemma select_where_ids (table : list (Row vector)) (q : vector) (thr : Q)
    (i : Z) :
  In i (map match_id (select_where cosine_distance table q thr)) ->
  In i (map (@id vector) table).
Proof.
  intros H. apply in_map_iff in H as [m [<- Hm]].
  apply in_select_where in Hm as [r [Hin [_ [_ [-> _]]]]].
  now apply in_map.
Qed.

Lemma select_where_nodup (table : list (Row vector)) (q : vector) (thr : Q) :
  NoDup (map (@id vector) table) ->
  NoDup (map match_id (select_where cosine_distance table q thr)).
Proof.
  induction table as [|r table IH]; intros Hnd.
  - constructor.
  - inversion Hnd as [|? ? Hnotin Hnd']; subst.
    change (select_where cosine_distance (r :: table) q thr)
      with ((match similarity_to cosine_distance q r with
             | Some s0 =>
                 if Qlt_bool thr s0
                 then [{| match_id := id r; match_content := content r;
                          similarity := s0 |}]
                 else []
             | None => []
             end) ++ select_where cosine_distance table q thr).
    destruct (similarity_to cosine_distance q r) as [s0|]; [| now apply IH].
    destruct (Qlt_bool thr s0); [| now apply IH].
    simpl. constructor; [| now apply IH].
    intros Hin. apply Hnotin. now apply select_where_ids in Hin.
Qed.

(** X3.  Every returned row is a row of the table, with that row's id and
    content, a stored embedding and a similarity above the threshold; and
    when the ids of the table are distinct (the primary key), no row is
    returned twice. *)
Theorem match_real_estate_rows_of_table (table : list (Row vector))
    (query_embedding : vector) (match_threshold : Q) (match_count : Z)
    (rows : list Match) :
  match_real_estate cosine_distance table query_embedding match_threshold
    match_count = Some rows ->
  (forall m, In m rows ->
     exists r e, In r table /\ embedding r = Some e
       /\ match_id m = id r /\ match_content m = content r
       /\ similarity m = 1 - cosine_distance e query_embedding
       /\ match_threshold < similarity m)
  /\ (NoDup (map (@id vector) table) -> NoDup (map match_id rows)).
Proof.
  intros H. split.
  - intros m Hm. apply match_real_estate_some in H as [_ [_ [_ Hsel]]].
    apply Hsel, in_select_where in Hm as [r [Hin [Hs [Hlt [Hid Hc]]]]].
    unfold similarity_to in Hs. destruct (embedding r) as [e|] eqn:E;
      [| discriminate].
    exists r, e. injection Hs as Hs. rewrite <- Hs in Hlt |- *.
    repeat split; assumption || reflexivity.
  - intros Hnd. apply match_real_estate_limit in H as [_ ->].
    apply (@select_where_nodup table query_embedding match_threshold) in Hnd.
    set (sorted := order_by_similarity_desc _).
    assert (Hperm : Permutation
                      (select_where cosine_distance table query_embedding
                         match_threshold)
                      (firstn (Z.to_nat match_count) sorted
                       ++ skipn (Z.to_nat match_count) sorted))
      by (rewrite firstn_skipn; apply order_by_perm).
    apply (Permutation_map match_id) in Hperm.
    apply (Permutation_NoDup Hperm) in Hnd. rewrite map_app in Hnd.
    now apply NoDup_app_remove_r in Hnd.
Qed.

(** Raising the threshold only removes rows: a row that qualifies above a
    higher threshold qualifies above a lower one. *)
Lemma select_where_threshold (table : list (Row vector)) (q : vector)
    (low high : Q) (m : Match) :
  low <= high ->
  In m (select_where cosine_distance table q high) ->
  In m (select_where cosine_distance table q low).
Proof.
  intros Hle Hm. apply in_select_where in Hm as [r [Hin [Hs [Hlt Hrest]]]].
  apply in_select_where. exists r. repeat split; try tauto.
  now apply Qle_lt_trans with high.
Qed.

End RealEstate.

Lemma match_real_estate_keeps_best_witness :
  exists dropped,
    Permutation
      (firstn 1 (order_by_similarity_desc
                   (select_where JsExamples.toy_distance
                      JsExamples.three_chunk_table 0%nat (1 # 4))) ++ dropped)
      (select_where JsExamples.toy_distance JsExamples.three_chunk_table
         0%nat (1 # 4))
    /\ forall a b,
         In a (firstn 1 (order_by_similarity_desc
                           (select_where JsExamples.toy_distance
                              JsExamples.three_chunk_table 0%nat (1 # 4)))) ->
         In b dropped -> similarity b <= similarity a.
Proof.
  apply (@match_real_estate_keeps_best nat JsExamples.toy_distance
           JsExamples.three_chunk_table 0%nat (1 # 4) 1).
  reflexivity.
Defined.

Lemma match_real_estate_count_witness :
  exists rows,
    match_real_estate JsExamples.toy_distance JsExamples.three_chunk_table
      0%nat (3 # 4) 5 = Some rows
    /\ length rows
       = Nat.min (Z.to_nat 5)
           (length (select_where JsExamples.toy_distance
                      JsExamples.three_chunk_table 0%nat (3 # 4)))
    /\ (length rows <= length JsExamples.three_chunk_table)%nat.
Proof.
  apply (@match_real_estate_count nat JsExamples.toy_distance
           JsExamples.three_chunk_table 0%nat (3 # 4) 5).
  lia.
Defined.

Lemma match_real_estate_rows_of_table_witness :
  NoDup (map match_id
           (firstn 2 (order_by_similarity_desc
                        (select_where JsExamples.toy_distance
                           JsExamples.three_chunk_table 0%nat (1 # 4))))).
Proof.
  refine (proj2 (@match_real_estate_rows_of_table nat JsExamples.toy_distance
                   JsExamples.three_chunk_table 0%nat (1 # 4) 2 _ _) _).
  - reflexivity.
  - repeat constructor; simpl; intuition discriminate.
Defined.

End SqlMore.

(** ** The JavaScript service: the request as a whole *)

Module JsMore.

Import Str StrFacts Sql SqlFacts Js JsFacts.
Local Open Scope string_scope.

Section Service.

Variable vector : Type.
Variable ext : Externals vector.

Lemma occurs_in_refl (s : string) : occurs_in s s.
Proof. exists "", "". simpl. induction s as [|c s IH]; simpl; [reflexivity | now rewrite <- IH]. Qed.

Lemma occurs_in_append_l (needle pre hay : string) :
  occurs_in needle hay -> occurs_in needle (pre ++ hay).
Proof.
  intros [a [b ->]]. exists (pre ++ a), b. now rewrite append_assoc.
Qed.

Lemma occurs_in_append_r (needle hay post : string) :
  occurs_in needle hay -> occurs_in needle (hay ++ post).
Proof.
  intros [a [b ->]]. exists a, (b ++ post). now rewrite !append_assoc.
Qed.

(** A part of a joined string occurs in it. *)
Lemma join_occurs (sep c : string) (parts : list (option string)) :
  In (Some c) parts -> occurs_in c (join sep parts).
Proof.
  induction parts as [|p parts IH]; [intros [] |].
  intros [-> | Hin].
  - destruct parts as [|p' parts]; cbn [join].
    + apply occurs_in_refl.
    + apply occurs_in_append_r, occurs_in_refl.
  - destruct parts as [|p' parts]; [destruct Hin |].
    change (join sep (p :: p' :: parts))
      with (match p with Some t => t | None => "" end
            ++ sep ++ join sep (p' :: parts)).
    apply occurs_in_append_l, occurs_in_append_l, IH, Hin.
Qed.

(** X4.  What the chat endpoint is sent contains the question and the content of
    every chunk that was retrieved. *)
Theorem retrieved_chunks_reach_prompt (query : string) (q : vector)
    (w : World vector) :
  embeddings_create ext query = Some q ->
  exists u,
    chat_requests (snd (documentSemanticSearch ext query w))
    = (chat_requests w ++ [chatMessages w ++ [u]])%list
    /\ role u = "user"
    /\ occurs_in query (content u)
    /\ forall m c,
         In m (fst (matchEmbedding ext q (3 # 4) 5 w)) ->
         match_content m = Some c -> occurs_in c (content u).
Proof.
  intros Hemb.
  set (matches := fst (matchEmbedding ext q (3 # 4) 5 w)).
  exists (user_message (join chunk_separator (map (@match_content) matches)) query).
  split; [| split; [reflexivity | split]].
  - rewrite (documentSemanticSearch_embedded ext query w Hemb). cbn [snd].
    rewrite (getChatCompletions_request ext).
    destruct (matchEmbedding_world ext q (3 # 4) 5 w) as [-> [-> _]].
    reflexivity.
  - cbn [user_message content].
    apply occurs_in_append_l, occurs_in_append_l, occurs_in_append_l.
    apply occurs_in_refl.
  - intros m c Hm Hc. cbn [user_message content].
    apply occurs_in_append_l, occurs_in_append_r, join_occurs.
    rewrite <- Hc. now apply in_map.
Qed.

(** The text the request sends as its user message. *)
Lemma api_search_outcome (question : string) (w : World vector) :
  fst (api_search ext question w)
  = match embeddings_create ext question with
    | None => error_500
    | Some q =>
        match chat_completions_create ext
                (chatMessages w
                 ++ [user_message
                       (join chunk_separator
                          (map (@match_content)
                             (fst (matchEmbedding ext q (3 # 4) 5 w))))
                       question])%list with
        | Some message =>
            {| status := 200; body := ContentBody (content message) |}
        | None => error_500
        end
    end.
Proof.
  unfold api_search.
  destruct (embeddings_create ext question) as [q|] eqn:E.
  - rewrite (documentSemanticSearch_embedded ext question w E).
    set (text := join _ _). set (w1 := snd (matchEmbedding _ _ _ _ _)).
    destruct (getChatCompletions_result ext text question w1) as [Hfst _].
    assert (H1 : chatMessages w1 = chatMessages w)
      by apply (matchEmbedding_world ext q (3 # 4) 5 w).
    cbv beta iota. rewrite Hfst, H1. clear Hfst.
    destruct (chat_completions_create ext _); reflexivity.
  - unfold documentSemanticSearch, generateEmbedding. now rewrite E.
Qed.

(** X5.  The handler answers 200 exactly when the embedding call and the chat
    completion both succeed, and then with the model's reply; otherwise it
    answers 500 with the fixed error body.  Whether Supabase answered plays
    no part. *)
Theorem api_search_status (question : string) (w : World vector) :
  (status (fst (api_search ext question w)) = 200%Z <->
   exists q message,
     embeddings_create ext question = Some q
     /\ chat_completions_create ext
          (chatMessages w
           ++ [user_message
                 (join chunk_separator
                    (map (@match_content)
                       (fst (matchEmbedding ext q (3 # 4) 5 w))))
                 question])%list = Some message
     /\ body (fst (api_search ext question w)) = ContentBody (content message))
  /\ (status (fst (api_search ext question w)) = 200%Z
      \/ fst (api_search ext question w) = error_500).
Proof.
  rewrite api_search_outcome.
  destruct (embeddings_create ext question) as [q|].
  - destruct (chat_completions_create ext _) as [message|] eqn:E.
    + split; [| now left]. split; [| reflexivity].
      intros _. exists q, message. now rewrite E.
    + split; [| now right]. split; [discriminate |].
      intros [q' [m' [Hq [Hm _]]]]. injection Hq as <-. congruence.
  - split; [| now right]. split; [discriminate |].
    intros [q' [m' [Hq _]]]. discriminate.
Qed.

(** X6.  When Supabase cannot be reached the request goes on without context:
    the failure is logged, the chat endpoint is sent the empty content, and
    the answer is whatever the model replies to that. *)
Theorem vector_store_outage_is_silent (query : string) (q : vector)
    (w : World vector) :
  supabase_reachable ext = false ->
  embeddings_create ext query = Some q ->
  let w' := snd (documentSemanticSearch ext query w) in
  In ErrorMatchingEmbedding (console_errors w')
  /\ chat_requests w'
     = (chat_requests w ++ [chatMessages w ++ [user_message "" query]])%list
  /\ fst (documentSemanticSearch ext query w)
     = Fulfilled (chat_completions_create ext
                    (chatMessages w ++ [user_message "" query])%list).
Proof.
  intros Hdown Hemb w'. subst w'.
  rewrite (documentSemanticSearch_embedded ext query w Hemb). cbn [fst snd].
  assert (Hm : matchEmbedding ext q (3 # 4) 5 w
               = ([], console_error ErrorMatchingEmbedding w)).
  { unfold matchEmbedding, rpc_match_real_estate. now rewrite Hdown. }
  rewrite Hm. cbn [fst snd map join].
  destruct (getChatCompletions_result ext "" query
              (console_error ErrorMatchingEmbedding w)) as [Hfst _].
  rewrite (getChatCompletions_request ext), Hfst. cbn [console_error chatMessages chat_requests].
  split; [| split; reflexivity].
  unfold getChatCompletions.
  destruct (chat_completions_create ext _); cbn;
    rewrite ?in_app_iff; simpl; tauto.
Qed.

(** *** Requests in sequence *)

(** What one request does to the world. *)
Lemma api_search_world (question : string) (w : World vector) :
  let w' := snd (api_search ext question w) in
  real_estate w' = real_estate w
  /\ real_estate_id_seq w' = real_estate_id_seq w
  /\ match embeddings_create ext question with
     | None =>
         chatMessages w' = chatMessages w
         /\ chat_requests w' = chat_requests w
     | Some q =>
         let u :=
           user_message
             (join chunk_separator
                (map (@match_content) (fst (matchEmbedding ext q (3 # 4) 5 w))))
             question in
         chat_requests w' = (chat_requests w ++ [chatMessages w ++ [u]])%list
         /\ chatMessages w'
            = ((chatMessages w ++ [u])
               ++ match chat_completions_create ext (chatMessages w ++ [u]) with
                  | Some message => [message]
                  | None => []
                  end)%list
     end.
Proof.
  unfold api_search, documentSemanticSearch, generateEmbedding,
    matchEmbedding, getChatCompletions.
  destruct (embeddings_create ext question) as [q|]; [| simpl; auto].
  destruct (rpc_match_real_estate ext w q (3 # 4) 5) as [data|err]; simpl;
    destruct (chat_completions_create ext _); simpl;
    rewrite ?app_nil_r; auto.
Qed.

Lemma serve_cons (question : string) (rest : list string) (w : World vector) :
  serve ext (question :: rest) w
  = (fst (api_search ext question w)
       :: fst (serve ext rest (snd (api_search ext question w))),
     snd (serve ext rest (snd (api_search ext question w)))).
Proof.
  simpl. destruct (api_search ext question w) as [r w1]. simpl.
  destruct (serve ext rest w1); reflexivity.
Qed.

Lemma api_search_headed (p : Message) (question : string) (w : World vector) :
  headed_by p w -> headed_by p (snd (api_search ext question w)).
Proof.
  intros [[rest Hc] Hr].
  destruct (api_search_world question w) as [_ [_ H]].
  destruct (embeddings_create ext question) as [q|].
  - destruct H as [Hreq Hchat]. split.
    + rewrite Hchat, Hc. simpl. eexists. reflexivity.
    + rewrite Hreq. apply Forall_app. split; [exact Hr |].
      constructor; [| constructor]. rewrite Hc. simpl. eexists. reflexivity.
  - destruct H as [Hchat Hreq]. split.
    + rewrite Hchat. now exists rest.
    + now rewrite Hreq.
Qed.

Lemma serve_headed (p : Message) (questions : list string) (w : World vector) :
  headed_by p w -> headed_by p (snd (serve ext questions w)).
Proof.
  revert w; induction questions as [|question rest IH]; intros w H.
  - exact H.
  - rewrite serve_cons. cbn [snd]. now apply IH, api_search_headed.
Qed.

(** X7.  However many requests the process has served since it was loaded, the
    system prompt is the first message of the conversation and of every
    request that was sent to the chat endpoint. *)
Theorem system_prompt_stays_first (questions : list string)
    (table : list (Row vector)) (seq : Z) :
  let w' := snd (serve ext questions (module_loaded table seq)) in
  (exists rest, chatMessages w' = systemPrompt :: rest)
  /\ Forall (fun sent => exists rest, sent = systemPrompt :: rest)
       (chat_requests w').
Proof.
  apply (serve_headed (p := systemPrompt)). split.
  - now exists [].
  - constructor.
Qed.

(** X8.  Serving requests never writes to the table: the rows and the id
    sequence are as before. *)
Theorem queries_leave_table_alone (questions : list string) (w : World vector) :
  real_estate (snd (serve ext questions w)) = real_estate w
  /\ real_estate_id_seq (snd (serve ext questions w)) = real_estate_id_seq w.
Proof.
  revert w; induction questions as [|question rest IH]; intros w.
  - now split.
  - rewrite serve_cons. cbn [snd].
    destruct (IH (snd (api_search ext question w))) as [-> ->].
    destruct (api_search_world question w) as [H1 [H2 _]]. now split.
Qed.

(** X9.  Every question gets one response; a question costs at most one request
    to the chat endpoint and adds at most two messages to the conversation. *)
Theorem serve_bounds (questions : list string) (w : World vector) :
  length (fst (serve ext questions w)) = length questions
  /\ (length (chat_requests (snd (serve ext questions w)))
      <= length (chat_requests w) + length questions)%nat
  /\ (length (chatMessages (snd (serve ext questions w)))
      <= length (chatMessages w) + 2 * length questions)%nat.
Proof.
  revert w; induction questions as [|question rest IH]; intros w.
  - simpl. lia.
  - rewrite serve_cons. cbn [fst snd length].
    destruct (IH (snd (api_search ext question w))) as [H1 [H2 H3]].
    destruct (api_search_world question w) as [_ [_ H]].
    destruct (embeddings_create ext question) as [q|].
    + destruct H as [Hreq Hchat].
      rewrite Hreq, length_app in H2. rewrite Hchat, !length_app in H3.
      cbn [length] in H2, H3.
      destruct (chat_completions_create ext _); cbn [length] in H3; lia.
    + destruct H as [Hchat Hreq]. rewrite Hreq in H2. rewrite Hchat in H3. lia.
Qed.

(** X10.  While both OpenAI calls succeed the conversation is never trimmed: after
    [n] requests it is [2 * n] messages longer, [n] requests have gone to the
    chat endpoint, and every response has status 200. *)
Theorem conversation_grows_without_bound (questions : list string)
    (w : World vector) :
  (forall text, embeddings_create ext text <> None) ->
  (forall messages, chat_completions_create ext messages <> None) ->
  length (chatMessages (snd (serve ext questions w)))
    = (length (chatMessages w) + 2 * length questions)%nat
  /\ length (chat_requests (snd (serve ext questions w)))
     = (length (chat_requests w) + length questions)%nat
  /\ Forall (fun r => status r = 200%Z) (fst (serve ext questions w)).
Proof.
  intros Hemb Hchat.
  revert w; induction questions as [|question rest IH]; intros w.
  - simpl. repeat split; try lia. constructor.
  - rewrite serve_cons. cbn [fst snd length].
    destruct (IH (snd (api_search ext question w))) as [H1 [H2 H3]].
    destruct (api_search_world question w) as [_ [_ H]].
    pose proof (api_search_outcome question w) as Hout.
    destruct (embeddings_create ext question) as [q|] eqn:E;
      [| now destruct (Hemb question)].
    destruct H as [Hreq Hmsgs].
    destruct (chat_completions_create ext _) as [message|] eqn:C;
      [| exfalso; exact (Hchat _ C)].
    rewrite Hmsgs, !length_app in H1. rewrite Hreq, length_app in H2.
    cbn [length] in H1, H2.
    repeat split; try lia.
    constructor; [now rewrite Hout | exact H3].
Qed.

End Service.

Lemma retrieved_chunks_reach_prompt_witness :
  exists u,
    chat_requests (snd (documentSemanticSearch JsExamples.all_up "Kothrud"
                          (module_loaded JsExamples.three_chunk_table 4)))
    = [[systemPrompt; u]]
    /\ role u = "user"
    /\ occurs_in "Kothrud" (content u)
    /\ forall m c,
         In m (fst (matchEmbedding JsExamples.all_up 0%nat (3 # 4) 5
                      (module_loaded JsExamples.three_chunk_table 4))) ->
         match_content m = Some c -> occurs_in c (content u).
Proof.
  apply (@retrieved_chunks_reach_prompt nat JsExamples.all_up "Kothrud" 0%nat
           (module_loaded JsExamples.three_chunk_table 4)).
  reflexivity.
Defined.

Lemma vector_store_outage_is_silent_witness :
  fst (documentSemanticSearch JsExamples.supabase_down "flats in Wakad"
         (module_loaded JsExamples.three_chunk_table 4))
  = Fulfilled (Some JsExamples.canned_reply).
Proof.
  refine (proj2 (proj2
            (@vector_store_outage_is_silent nat JsExamples.supabase_down
               "flats in Wakad" 0%nat
               (module_loaded JsExamples.three_chunk_table 4) _ _))).
  - reflexivity.
  - reflexivity.
Defined.

Lemma conversation_grows_without_bound_witness :
  length (chatMessages
            (snd (serve JsExamples.all_up ["Wakad"; "Kothrud"; "Kharadi"]
                    (module_loaded JsExamples.three_chunk_table 4))))
  = 7%nat.
Proof.
  refine (proj1 (@conversation_grows_without_bound nat JsExamples.all_up
                   ["Wakad"; "Kothrud"; "Kharadi"]
                   (module_loaded JsExamples.three_chunk_table 4) _ _)).
  - discriminate.
  - discriminate.
Defined.

End JsMore.

(** ** Ingestion: what reaches the table *)

Module IngestFacts.

Import Sql SqlFacts Js JsFacts.
Local Open Scope string_scope.

Section Service.

Variable vector : Type.
Variable ext : Externals vector.

Lemma embed_chunks_none (chunks : list string) :
  embed_chunks ext chunks = None <->
  exists chunk, In chunk chunks /\ generateEmbedding ext chunk = None.
Proof.
  induction chunks as [|c chunks IH]; simpl.
  - split; [discriminate | intros [chunk [[] _]]].
  - destruct (generateEmbedding ext c) eqn:E.
    + destruct (embed_chunks ext chunks) as [data|].
      * split; [discriminate |].
        intros [chunk [[<- | Hin] Hnone]]; [congruence |].
        assert (H : Some data = None) by (apply IH; now exists chunk).
        discriminate.
      * split; [| reflexivity]. intros _.
        destruct (proj1 IH eq_refl) as [chunk [Hin Hnone]].
        exists chunk. split; [now right | exact Hnone].
    + split; [| reflexivity]. intros _. exists c. split; [now left | exact E].
Qed.

Lemma embed_chunks_some (chunks : list string) (data : list (string * vector)) :
  embed_chunks ext chunks = Some data ->
  map fst data = chunks
  /\ map (fun d => Some (snd d)) data = map (generateEmbedding ext) chunks.
Proof.
  revert data; induction chunks as [|c chunks IH]; intros data; simpl.
  - intros [= <-]. now split.
  - destruct (generateEmbedding ext c) as [e|]; [| discriminate].
    destruct (embed_chunks ext chunks) as [d|]; [| discriminate].
    intros [= <-]. destruct (IH d eq_refl) as [H1 H2]. simpl.
    now rewrite H1, H2.
Qed.

(** X11.  If the embedding of a single chunk fails, the script is rejected and has
    stored nothing, also not the chunks whose embedding succeeded. *)
Theorem ingestion_all_or_nothing (splitContent : string -> list string)
    (content : string) (w : World vector) :
  (exists chunk, In chunk (splitContent content)
                 /\ embeddings_create ext chunk = None) ->
  (exists reason,
     fst (documentEmbedding ext splitContent (Some content) w) = Rejected reason)
  /\ snd (documentEmbedding ext splitContent (Some content) w) = w.
Proof.
  intros H. apply embed_chunks_none in H.
  unfold documentEmbedding. rewrite H. split; [eexists |]; reflexivity.
Qed.


Lemma number_rows_ids (next : Z) (data : list (string * vector)) :
  map (@id vector) (number_rows next data)
  = map (fun i => (next + Z.of_nat i)%Z) (seq 0 (length data)).
Proof.
  revert next; induction data as [|[c e] data IH]; intros next; simpl.
  - reflexivity.
  - rewrite Z.add_0_r. f_equal. rewrite IH, <- seq_shift, map_map.
    apply map_ext. intros i. lia.
Qed.

Lemma consecutive_ids_nodup (next : Z) (from n : nat) :
  NoDup (map (fun i => (next + Z.of_nat i)%Z) (seq from n)).
Proof.
  revert from; induction n as [|n IH]; intros from; simpl; constructor.
  - intros H. apply in_map_iff in H as [k [Hk Hin]]. apply in_seq in Hin. lia.
  - apply IH.
Qed.

Lemma number_rows_fields (next : Z) (data : list (string * vector)) :
  map (@Sql.content vector) (number_rows next data)
    = map (fun d => Some (fst d)) data
  /\ map (@embedding vector) (number_rows next data)
     = map (fun d => Some (snd d)) data.
Proof.
  revert next; induction data as [|[c e] data IH]; intros next; simpl.
  - now split.
  - destruct (IH (next + 1)%Z) as [-> ->]. now split.
Qed.

Lemma ingested_rows_are_the_chunks_aux (splitContent : string -> list string)
    (content : string) (w : World vector) :
  supabase_reachable ext = true ->
  (forall chunk, In chunk (splitContent content) ->
                 embeddings_create ext chunk <> None) ->
  exists new_rows,
    real_estate (snd (documentEmbedding ext splitContent (Some content) w))
    = (real_estate w ++ new_rows)%list
    /\ map (@Sql.content vector) new_rows = map Some (splitContent content)
    /\ map (@embedding vector) new_rows
       = map (embeddings_create ext) (splitContent content)
    /\ map (@id vector) new_rows
       = map (fun i => (real_estate_id_seq w + Z.of_nat i)%Z)
           (seq 0 (length (splitContent content))).
Proof.
  intros Hup Hall. unfold documentEmbedding.
  destruct (embed_chunks ext (splitContent content)) as [data|] eqn:E.
  - exists (number_rows (real_estate_id_seq w) data).
    destruct (embed_chunks_some _ E) as [Hfst Hsnd].
    destruct (number_rows_fields (real_estate_id_seq w) data) as [Hc He].
    unfold storeEmbeddingToSupabase. rewrite Hup. cbn [snd real_estate].
    split; [reflexivity |]. split; [| split].
    + rewrite Hc, <- Hfst, map_map. reflexivity.
    + rewrite He, Hsnd. reflexivity.
    + rewrite number_rows_ids, <- Hfst, length_map. reflexivity.
  - apply embed_chunks_none in E as [chunk [Hin Hnone]].
    now destruct (Hall chunk Hin).
Qed.

(** X13.  A successful ingestion appends the chunks in the order of the splitter:
    each new row has the text of its chunk, the embedding computed for that
    text, and the next ids of the sequence. *)
Theorem ingested_rows_are_the_chunks (splitContent : string -> list string)
    (content : string) (w : World vector) :
  supabase_reachable ext = true ->
  (forall chunk, In chunk (splitContent content) ->
                 embeddings_create ext chunk <> None) ->
  exists new_rows,
    real_estate (snd (documentEmbedding ext splitContent (Some content) w))
    = (real_estate w ++ new_rows)%list
    /\ map (@Sql.content vector) new_rows = map Some (splitContent content)
    /\ map (@embedding vector) new_rows
       = map (embeddings_create ext) (splitContent content)
    /\ map (@id vector) new_rows
       = map (fun i => (real_estate_id_seq w + Z.of_nat i)%Z)
           (seq 0 (length (splitContent content))).
Proof. apply ingested_rows_are_the_chunks_aux. Qed.

Lemma store_primary_key (data : list (string * vector)) (w : World vector) :
  primary_key_ok w -> primary_key_ok (storeEmbeddingToSupabase ext data w).
Proof.
  intros [Hnd Hlt]. unfold storeEmbeddingToSupabase.
  destruct (supabase_reachable ext);
    [| split; cbn [real_estate real_estate_id_seq];
       [exact Hnd | intros r Hr; apply Hlt in Hr; lia]].
  assert (Hnew : forall i,
            In i (map (@id vector) (number_rows (real_estate_id_seq w) data)) ->
            (real_estate_id_seq w <= i
             < real_estate_id_seq w + Z.of_nat (length data))%Z).
  { intros i Hi. rewrite number_rows_ids in Hi.
    apply in_map_iff in Hi as [k [<- Hk]]. apply in_seq in Hk. lia. }
  split; cbn [real_estate real_estate_id_seq].
  - rewrite map_app. apply NoDup_app.
    + exact Hnd.
    + rewrite number_rows_ids. apply consecutive_ids_nodup.
    + intros i Hold Hin. apply Hnew in Hin.
      apply in_map_iff in Hold as [r [<- Hr]]. apply Hlt in Hr. lia.
  - intros r Hr. apply in_app_or in Hr as [Hr | Hr].
    + apply Hlt in Hr. lia.
    + assert (Hi : In (id r) (map (@id vector)
                                 (number_rows (real_estate_id_seq w) data)))
        by now apply in_map.
      apply Hnew in Hi. lia.
Qed.

(** X14.  The primary key survives every run of the script, successful or not:
    ids stay distinct and below the sequence. *)
Theorem ingestion_keeps_primary_key (splitContent : string -> list string)
    (file : option string) (w : World vector) :
  primary_key_ok w ->
  primary_key_ok (snd (documentEmbedding ext splitContent file w)).
Proof.
  intros H. unfold documentEmbedding.
  destruct file as [content|]; [| exact H].
  destruct (embed_chunks ext (splitContent content)) as [data|]; [| exact H].
  now apply store_primary_key.
Qed.

(** X15.  Ingest, then search: when the distance of an embedding to itself is 0,
    a search with the embedding of an ingested chunk finds at least one
    match, so the question is not answered from empty context. *)
Theorem ingested_chunk_is_retrievable (splitContent : string -> list string)
    (content chunk : string) (e : vector) (w : World vector) :
  supabase_reachable ext = true ->
  (forall c, In c (splitContent content) -> embeddings_create ext c <> None) ->
  In chunk (splitContent content) ->
  embeddings_create ext chunk = Some e ->
  cosine_distance ext e e == 0 ->
  fst (matchEmbedding ext e (3 # 4) 5
         (snd (documentEmbedding ext splitContent (Some content) w)))
  <> [].
Proof.
  intros Hup Hall Hin He Hd.
  destruct (ingested_rows_are_the_chunks_aux splitContent content w Hup Hall)
    as [new_rows [Htable [Hc [Hemb _]]]].
  set (w' := snd (documentEmbedding ext splitContent (Some content) w)) in *.
  assert (Hrow : exists r, In r (real_estate w') /\ embedding r = Some e).
  { assert (Hi : In (Some e) (map (@embedding vector) new_rows)).
    { rewrite Hemb, <- He. now apply in_map. }
    apply in_map_iff in Hi as [r [Hr Hinr]]. exists r. split; [| exact Hr].
    rewrite Htable. apply in_or_app. now right. }
  destruct Hrow as [r [Hr Hre]].
  assert (Hsel : In {| match_id := id r; match_content := Sql.content r;
                       similarity := 1 - cosine_distance ext e e |}
                   (select_where (cosine_distance ext) (real_estate w') e (3 # 4))).
  { apply in_select_where. exists r. cbn [similarity match_id match_content].
    split; [exact Hr |]. split; [unfold similarity_to; now rewrite Hre |].
    split; [rewrite Hd; reflexivity | now split]. }
  unfold matchEmbedding, rpc_match_real_estate. rewrite Hup.
  unfold match_real_estate. cbn [Z.ltb Z.compare fst].
  intros Hnil. apply (f_equal (@length _)) in Hnil.
  rewrite length_firstn, order_by_length in Hnil. cbn [length] in Hnil.
  destruct (select_where (cosine_distance ext) (real_estate w') e (3 # 4));
    [destruct Hsel | simpl in Hnil; lia].
Qed.

End Service.

Lemma ingestion_all_or_nothing_witness :
  let w := module_loaded JsExamples.one_chunk_table 2 in
  snd (documentEmbedding JsExamples.embedding_partly_down
         JsExamples.split_lines (Some JsExamples.two_line_document) w)
  = w.
Proof.
  intros w.
  refine (proj2 (@ingestion_all_or_nothing nat JsExamples.embedding_partly_down
                   JsExamples.split_lines JsExamples.two_line_document w _)).
  exists "Skyline Orchid, Kharadi". split; [vm_compute; tauto | reflexivity].
Defined.


(** A rejected insert that drew two ids leaves the sequence at 4; the next
    successful ingestion numbers its rows from there. *)
Example rejected_insert_leaves_gap :
  let w := module_loaded JsExamples.one_chunk_table 2 in
  let failed :=
    snd (documentEmbedding JsExamples.insert_rejected JsExamples.split_lines
           (Some JsExamples.two_line_document) w) in
  let retried :=
    snd (documentEmbedding JsExamples.all_up JsExamples.split_lines
           (Some JsExamples.two_line_document) failed) in
  real_estate_id_seq failed = 4%Z
  /\ map (@id nat) (real_estate retried) = [1%Z; 4%Z; 5%Z].
Proof. split; reflexivity. Qed.

Lemma ingested_rows_are_the_chunks_witness :
  exists new_rows,
    real_estate (snd (documentEmbedding JsExamples.all_up JsExamples.split_lines
                        (Some JsExamples.two_line_document)
                        (module_loaded JsExamples.one_chunk_table 2)))
    = (JsExamples.one_chunk_table ++ new_rows)%list
    /\ map (@Sql.content nat) new_rows
       = map Some (JsExamples.split_lines JsExamples.two_line_document)
    /\ map (@embedding nat) new_rows
       = map (embeddings_create JsExamples.all_up)
           (JsExamples.split_lines JsExamples.two_line_document)
    /\ map (@id nat) new_rows
       = map (fun i => (2 + Z.of_nat i)%Z)
           (seq 0 (length (JsExamples.split_lines JsExamples.two_line_document))).
Proof.
  apply (@ingested_rows_are_the_chunks nat JsExamples.all_up
           JsExamples.split_lines JsExamples.two_line_document
           (module_loaded JsExamples.one_chunk_table 2)).
  - reflexivity.
  - intros chunk _. discriminate.
Defined.

Lemma ingestion_keeps_primary_key_witness :
  primary_key_ok
    (snd (documentEmbedding JsExamples.all_up JsExamples.split_lines
            (Some JsExamples.two_line_document)
            (module_loaded JsExamples.three_chunk_table 4))).
Proof.
  apply ingestion_keeps_primary_key. split.
  - simpl. repeat constructor; simpl; intuition discriminate.
  - intros r [<- | [<- | [<- | []]]]; reflexivity.
Defined.

Lemma ingested_chunk_is_retrievable_witness :
  fst (matchEmbedding JsExamples.all_up 0%nat (3 # 4) 5
         (snd (documentEmbedding JsExamples.all_up JsExamples.split_lines
                 (Some JsExamples.two_line_document)
                 (module_loaded JsExamples.one_chunk_table 2))))
  <> [].
Proof.
  apply (@ingested_chunk_is_retrievable nat JsExamples.all_up
           JsExamples.split_lines JsExamples.two_line_document
           "Evergreen Heights, Wakad").
  - reflexivity.
  - intros c _. discriminate.
  - vm_compute. tauto.
  - reflexivity.
  - reflexivity.
Defined.

End IngestFacts.

(** ** main.py: more on the filter and the prompt *)

Module MainPyMore.

Import Str StrFacts MainPy MainPyFacts.
Local Open Scope string_scope.

Lemma filter_sorted (A : Type) (R : A -> A -> Prop) (f : A -> bool)
    (l : list A) :
  StronglySorted R l -> StronglySorted R (filter f l).
Proof.
  induction 1 as [|x l Hs IH Hall]; simpl; [constructor |].
  destruct (f x); [| exact IH].
  constructor; [exact IH |].
  rewrite Forall_forall in *. intros y Hy. apply Hall.
  now apply filter_In in Hy.
Qed.

Lemma filter_length_le (A : Type) (f : A -> bool) (l : list A) :
  (length (filter f l) <= length l)%nat.
Proof.
  induction l as [|x l IH]; simpl; [lia |]. destruct (f x); simpl; lia.
Qed.

(** The filter answers either the candidates or a [filter] of them. *)
Lemma filter_by_location_cases (query_analysis : QueryAnalysis)
    (results : list SearchResult) :
  filter_by_location query_analysis results = results
  \/ exists f, filter_by_location query_analysis results = filter f results
               /\ filter f results <> [].
Proof.
  unfold filter_by_location.
  destruct (get_locations query_analysis) as [|l0 locs]; [now left |].
  destruct (filter _ results) as [|r rs] eqn:E; [now left |].
  right. eexists. split; [symmetry; exact E |]. rewrite E. discriminate.
Qed.

(** X16.  The filter only deletes candidates: whatever order the vector store
    returned them in (descending score), the filtered list is in that order
    too, and it is no longer than the candidate list. *)
Theorem location_filter_keeps_order (R : SearchResult -> SearchResult -> Prop)
    (query_analysis : QueryAnalysis) (results : list SearchResult) :
  StronglySorted R results ->
  StronglySorted R (filter_by_location query_analysis results)
  /\ (length (filter_by_location query_analysis results) <= length results)%nat
  /\ forall r, In r (filter_by_location query_analysis results) -> In r results.
Proof.
  intros Hs.
  destruct (filter_by_location_cases query_analysis results)
    as [-> | [f [-> _]]].
  - repeat split; auto.
  - split; [now apply filter_sorted |]. split; [apply filter_length_le |].
    intros r Hr. now apply filter_In in Hr.
Qed.

Lemma filter_filter_same (A : Type) (f : A -> bool) (l : list A) :
  filter f (filter f l) = filter f l.
Proof.
  induction l as [|x l IH]; simpl; [reflexivity |].
  destruct (f x) eqn:E; simpl; [rewrite E; now f_equal | exact IH].
Qed.

(** X17.  Filtering twice is filtering once. *)
Theorem location_filter_idempotent (query_analysis : QueryAnalysis)
    (results : list SearchResult) :
  filter_by_location query_analysis
    (filter_by_location query_analysis results)
  = filter_by_location query_analysis results.
Proof.
  unfold filter_by_location.
  destruct (get_locations query_analysis) as [|l0 locs]; [reflexivity |].
  set (f := mentions_location (map lower (l0 :: locs))).
  destruct (filter f results) as [|r rs] eqn:E.
  - now rewrite E.
  - rewrite <- E, filter_filter_same, E. reflexivity.
Qed.

(** X18.  An empty string among the extracted locations switches the filter off:
    the empty string occurs in every text, so every candidate is kept. *)
Theorem empty_location_keeps_everything (locs : list string)
    (results : list SearchResult) :
  In "" locs ->
  filter_by_location {| locations := Some locs |} results = results.
Proof.
  intros Hin. unfold filter_by_location, get_locations; cbn [locations].
  destruct locs as [|l0 locs']; [destruct Hin |].
  set (locs := l0 :: locs') in *.
  assert (Hall : forall r, mentions_location (map lower locs) r = true).
  { intros r. unfold mentions_location. apply existsb_exists.
    exists "". split; [| apply contains_nil].
    change "" with (lower ""). now apply in_map. }
  assert (Hf : filter (mentions_location (map lower locs)) results = results).
  { induction results as [|r rs IH]; cbn [filter]; [reflexivity |].
    now rewrite Hall, IH. }
  rewrite Hf. now destruct results.
Qed.

Lemma py_join_occurs (sep loc : string) (parts : list string) :
  In loc parts -> occurs_in loc (py_join sep parts).
Proof.
  induction parts as [|p parts IH]; [intros [] |].
  intros [-> | Hin].
  - destruct parts as [|p' parts]; cbn [py_join].
    + apply JsMore.occurs_in_refl.
    + apply JsMore.occurs_in_append_r, JsMore.occurs_in_refl.
  - destruct parts as [|p' parts]; [destruct Hin |].
    change (py_join sep (p :: p' :: parts))
      with (p ++ sep ++ py_join sep (p' :: parts)).
    apply JsMore.occurs_in_append_l, JsMore.occurs_in_append_l, IH, Hin.
Qed.

Lemma starts_with_append (a b : string) : starts_with a (a ++ b) = true.
Proof. apply starts_with_spec. now exists b. Qed.

(** X19.  With locations extracted, the system prompt is extended, not replaced:
    the result begins with the prompt as it was, names every extracted
    location, and carries the instruction not to include other localities. *)
Theorem location_instructions_added (locs : list string)
    (system_prompt : string) :
  locs <> [] ->
  exists extended,
    add_location_instructions {| locations := Some locs |} system_prompt
    = Some extended
    /\ starts_with system_prompt extended = true
    /\ (forall loc, In loc locs -> occurs_in loc extended)
    /\ occurs_in "DO NOT include properties from other localities" extended.
Proof.
  intros Hne. destruct locs as [|l0 locs']; [contradiction |].
  set (locs := l0 :: locs') in *.
  unfold add_location_instructions; cbn [locations]. fold locs.
  eexists. split; [reflexivity |]. split; [| split].
  - rewrite !append_assoc. apply starts_with_append.
  - intros loc Hin.
    apply JsMore.occurs_in_append_r, JsMore.occurs_in_append_r.
    apply JsMore.occurs_in_append_l, JsMore.occurs_in_append_l.
    apply JsMore.occurs_in_append_l. now apply py_join_occurs.
  - apply JsMore.occurs_in_append_l, JsMore.occurs_in_append_l.
    exists "*** ", " in your response ***". reflexivity.
Qed.

(** The prompt for two locations, written out. *)
Example location_instructions_for_two :
  add_location_instructions {| locations := Some ["Wakad"; "Baner"] |}
    "You are a real estate assistant."
  = Some ("You are a real estate assistant." ++ LF
          ++ "Preferred locations: Wakad, Baner" ++ LF ++ LF
          ++ "*** IMPORTANT: ONLY show properties from these locations: Wakad, Baner ***"
          ++ LF
          ++ "*** DO NOT include properties from other localities in your response ***").
Proof. reflexivity. Qed.

Lemma location_filter_keeps_order_witness :
  let a := {| chunk := 1; text := Some "Evergreen Heights, Wakad" |} in
  let b := {| chunk := 2; text := Some "Skyline Orchid, Kharadi" |} in
  let c := {| chunk := 3; text := Some "Wakad Greens" |} in
  StronglySorted (fun x y => (chunk x <= chunk y)%Z)
    (filter_by_location {| locations := Some ["wakad"] |} [a; b; c]).
Proof.
  intros a b c.
  refine (proj1 (@location_filter_keeps_order
                   (fun x y => (chunk x <= chunk y)%Z)
                   {| locations := Some ["wakad"] |} [a; b; c] _)).
  repeat constructor; simpl; lia.
Defined.

Lemma empty_location_keeps_everything_witness :
  filter_by_location {| locations := Some ["Baner"; ""] |} twenty_chunks
  = twenty_chunks.
Proof.
  apply empty_location_keeps_everything. simpl. tauto.
Defined.

Lemma location_instructions_added_witness :
  exists extended,
    add_location_instructions {| locations := Some ["Wakad"; "Baner"] |}
      "You are a real estate assistant."
    = Some extended
    /\ starts_with "You are a real estate assistant." extended = true
    /\ (forall loc, In loc ["Wakad"; "Baner"] -> occurs_in loc extended)
    /\ occurs_in "DO NOT include properties from other localities" extended.
Proof.
  apply location_instructions_added. discriminate.
Defined.

End MainPyMore.

(** ** The page script *)

Module ClientFacts.

Import Js JsFacts JsMore Client.
Local Open Scope string_scope.





End ClientFacts.
